(** * MABP coordinator: protocol state machine, codec and timeout sweep

    Shallow embedding of [src/coordinator.ts], [src/parser.ts] and
    [src/types.ts].

    Conventions of the embedding:
    - a JS string is a [string] of 8-bit code units (the Latin-1 range of
      UTF-16); character classes, [trim] and [toLowerCase] are written out
      for that range;
    - a JS [number] holding a timestamp, a duration or a counter is a [Z];
    - an optional field ([assignee?], [claimedAt?], ...) is an [option],
      [None] standing for [undefined];
    - [Map<string, Component>] is an association list in insertion order;
      [Map.set] on a present key overwrites the value where the key sits;
    - component objects are mutated through references taken out of the
      map, which is rendered as an in-place update of the map entry;
    - [Date.now()] is an explicit argument [now];
    - [sendMessage] appends to the list of outbound messages returned by
      every operation. *)

From Stdlib Require Import String Ascii List ZArith Bool Lia.
Import ListNotations.
Open Scope string_scope.
Open Scope Z_scope.

(** ** Strings as the source uses them *)

Module JsString.

Definition code (c : ascii) : nat := nat_of_ascii c.

(** [\s], also the set [String.prototype.trim] removes. *)
Definition isSpace (c : ascii) : bool :=
  let n := code c in
  ((9 <=? n) && (n <=? 13) || (n =? 32) || (n =? 160))%nat.

(** [\S] *)
Definition isNonSpace (c : ascii) : bool := negb (isSpace c).

(** [\d] *)
Definition isDigit (c : ascii) : bool :=
  let n := code c in ((48 <=? n) && (n <=? 57))%nat.

(** [.] (no [s] flag): anything but a line terminator. *)
Definition isDot (c : ascii) : bool :=
  let n := code c in negb ((n =? 10) || (n =? 13))%nat.

Definition lowerChar (c : ascii) : ascii :=
  let n := code c in
  if ((65 <=? n) && (n <=? 90))%nat then ascii_of_nat (n + 32)
  else if ((192 <=? n) && (n <=? 222) && negb (n =? 215))%nat
       then ascii_of_nat (n + 32)
  else c.

(** Canonicalisation of the [i] flag, on patterns whose literals are
    ASCII letters: a-z fold to A-Z, nothing else folds onto a letter. *)
Definition canonicalize (c : ascii) : ascii :=
  let n := code c in
  if ((97 <=? n) && (n <=? 122))%nat then ascii_of_nat (n - 32) else c.

Fixpoint toLowerCase (s : string) : string :=
  match s with
  | EmptyString => EmptyString
  | String c s' => String (lowerChar c) (toLowerCase s')
  end.

Fixpoint trimStart (s : string) : string :=
  match s with
  | EmptyString => EmptyString
  | String c s' => if isSpace c then trimStart s' else s
  end.

(** Removes the trailing run of white space: a character is kept when
    something that is kept follows it, or when it is not white space. *)
Fixpoint trimEnd (s : string) : string :=
  match s with
  | EmptyString => EmptyString
  | String c s' =>
      match trimEnd s' with
      | EmptyString => if isSpace c then EmptyString else String c EmptyString
      | rest => String c rest
      end
  end.

Definition trim (s : string) : string := trimEnd (trimStart s).

(** [Array.prototype.join] *)
Fixpoint join (sep : string) (xs : list string) : string :=
  match xs with
  | [] => ""
  | [x] => x
  | x :: rest => x ++ sep ++ join sep rest
  end.

(** A value interpolated in a template literal. *)
Definition interp (o : option string) : string :=
  match o with Some s => s | None => "undefined" end.

(** [a || b] on an optional string: the empty string is falsy too. *)
Definition orElse (o : option string) (d : string) : string :=
  match o with
  | Some s => if String.eqb s "" then d else s
  | None => d
  end.

(** [a || b] between two captures. *)
Definition orCapture (a b : option string) : option string :=
  match a with
  | Some s => if String.eqb s "" then b else a
  | None => b
  end.

End JsString.

(** ** types.ts *)

Inductive ComponentStatus : Type :=
| pending     (* Available to claim *)
| claimed     (* Claimed, waiting for progress *)
| building    (* In progress *)
| ready       (* PR created, waiting for audit *)
| auditing    (* Being audited *)
| merged      (* Complete *)
| failed.     (* Failed audit 3x *)

Definition status_eqb (a b : ComponentStatus) : bool :=
  match a, b with
  | pending, pending | claimed, claimed | building, building
  | ready, ready | auditing, auditing | merged, merged | failed, failed => true
  | _, _ => false
  end.

Definition statusText (s : ComponentStatus) : string :=
  match s with
  | pending => "pending" | claimed => "claimed" | building => "building"
  | ready => "ready" | auditing => "auditing" | merged => "merged"
  | failed => "failed"
  end.

Record Component : Type := mkComponent {
  name : string;
  status : ComponentStatus;
  assignee : option string;
  dependencies : list string;
  prUrl : option string;
  claimedAt : option Z;
  lastProgress : option Z;
  retryCount : Z
}.

Inductive MessageType : Type :=
| TASKS | CLAIM | ACK | REJECT | PROGRESS | BLOCKED
| READY | AUDIT | MERGED | TIMEOUT | RETRY | ABORT.

Definition typeText (t : MessageType) : string :=
  match t with
  | TASKS => "TASKS" | CLAIM => "CLAIM" | ACK => "ACK" | REJECT => "REJECT"
  | PROGRESS => "PROGRESS" | BLOCKED => "BLOCKED" | READY => "READY"
  | AUDIT => "AUDIT" | MERGED => "MERGED" | TIMEOUT => "TIMEOUT"
  | RETRY => "RETRY" | ABORT => "ABORT"
  end.

Record ParsedMessage : Type := mkParsed {
  type : MessageType;
  component : option string;
  agent : option string;
  value : option string
}.

(** Field assignments on a component object. *)
Definition set_status (v : ComponentStatus) (c : Component) : Component :=
  mkComponent (name c) v (assignee c) (dependencies c) (prUrl c)
              (claimedAt c) (lastProgress c) (retryCount c).
Definition set_assignee (v : option string) (c : Component) : Component :=
  mkComponent (name c) (status c) v (dependencies c) (prUrl c)
              (claimedAt c) (lastProgress c) (retryCount c).
Definition set_prUrl (v : option string) (c : Component) : Component :=
  mkComponent (name c) (status c) (assignee c) (dependencies c) v
              (claimedAt c) (lastProgress c) (retryCount c).
Definition set_claimedAt (v : option Z) (c : Component) : Component :=
  mkComponent (name c) (status c) (assignee c) (dependencies c) (prUrl c)
              v (lastProgress c) (retryCount c).
Definition set_lastProgress (v : option Z) (c : Component) : Component :=
  mkComponent (name c) (status c) (assignee c) (dependencies c) (prUrl c)
              (claimedAt c) v (retryCount c).
Definition set_retryCount (v : Z) (c : Component) : Component :=
  mkComponent (name c) (status c) (assignee c) (dependencies c) (prUrl c)
              (claimedAt c) (lastProgress c) v.

(** ** The component map *)

Module CMap.

Definition t : Type := list (string * Component).

Fixpoint get (k : string) (m : t) : option Component :=
  match m with
  | [] => None
  | (k', c) :: m' => if String.eqb k k' then Some c else get k m'
  end.

Fixpoint set (k : string) (v : Component) (m : t) : t :=
  match m with
  | [] => [(k, v)]
  | (k', c) :: m' =>
      if String.eqb k k' then (k', v) :: m' else (k', c) :: set k v m'
  end.

(** Mutation of the object stored under [k]. *)
Fixpoint update (k : string) (f : Component -> Component) (m : t) : t :=
  match m with
  | [] => []
  | (k', c) :: m' =>
      if String.eqb k k' then (k', f c) :: m' else (k', c) :: update k f m'
  end.

Definition values (m : t) : list Component := map snd m.

(** [get(undefined)] finds nothing: every key is a string. *)
Definition getOpt (k : option string) (m : t) : option Component :=
  match k with Some k => get k m | None => None end.

Definition updateOpt (k : option string) (f : Component -> Component)
           (m : t) : t :=
  match k with Some k => update k f m | None => m end.

End CMap.

Record BuildState : Type := mkState {
  specUrl : string;
  components : CMap.t;
  startedAt : Z
}.

Definition with_components (m : CMap.t) (s : BuildState) : BuildState :=
  mkState (specUrl s) m (startedAt s).

(** ** parser.ts *)

(** The fragment of regular expressions the message patterns are written
    in, with the backtracking (leftmost, greedy) matching of the source
    language.  Every pattern is anchored by [^] and carries the [i] flag. *)
Module RegExp.

Inductive t : Type :=
| Lit (l : string)              (* literal characters *)
| Plus (cls : ascii -> bool)    (* greedy [c+] of a character class *)
| Opt (r : t)                   (* greedy [(?:r)?] *)
| Seq (r1 r2 : t)
| Alt (r1 r2 : t)
| Group (n : nat) (r : t).      (* n-th capturing group *)

(** [match[n]]; [None] is a group that took no part in the match. *)
Definition Captures : Type := nat -> option string.

Definition noCaptures : Captures := fun _ => None.

Definition capture (n : nat) (s : string) (caps : Captures) : Captures :=
  fun i => if Nat.eqb i n then Some s else caps i.

(** What was consumed between input [s] and the remaining input [rest]. *)
Definition consumed (s rest : string) : string :=
  substring 0 (String.length s - String.length rest) s.

Fixpoint lit (l s : string) : option string :=
  match l, s with
  | EmptyString, _ => Some s
  | String a l', String c s' =>
      if Ascii.eqb (JsString.canonicalize a) (JsString.canonicalize c)
      then lit l' s' else None
  | String _ _, EmptyString => None
  end.

(** Greedy [c*]: the longest run first, then shorter ones on failure of
    the continuation. *)
Fixpoint star {R : Type} (cls : ascii -> bool) (s : string)
         (k : string -> option R) : option R :=
  match s with
  | String c s' =>
      if cls c then
        match star cls s' k with
        | Some r => Some r
        | None => k s
        end
      else k s
  | EmptyString => k s
  end.

Fixpoint run {R : Type} (r : t) (s : string) (caps : Captures)
         (k : string -> Captures -> option R) : option R :=
  match r with
  | Lit l =>
      match lit l s with
      | Some rest => k rest caps
      | None => None
      end
  | Plus cls =>
      match s with
      | String c s' =>
          if cls c then star cls s' (fun rest => k rest caps) else None
      | EmptyString => None
      end
  | Opt r' =>
      match run r' s caps k with
      | Some x => Some x
      | None => k s caps
      end
  | Seq r1 r2 => run r1 s caps (fun s1 c1 => run r2 s1 c1 k)
  | Alt r1 r2 =>
      match run r1 s caps k with
      | Some x => Some x
      | None => run r2 s caps k
      end
  | Group n r' =>
      run r' s caps (fun rest c' => k rest (capture n (consumed s rest) c'))
  end.

(** [s.match(/^r/i)]: the captures of the match at position 0, if any. *)
Definition exec (r : t) (s : string) : option Captures :=
  run r s noCaptures (fun _ caps => Some caps).

End RegExp.

Module Patterns.
Import RegExp.

Infix "+>" := Seq (at level 60, right associativity).

(** The optional bold marker, written <b> in the patterns quoted below:
    a non-capturing group of two escaped asterisks followed by [?]. *)
Definition bold : RegExp.t := Opt (Lit "**").
Definition ws : RegExp.t := Plus JsString.isSpace.
Definition word (n : nat) : RegExp.t := Group n (Plus JsString.isNonSpace).

(** Source pattern, <b> as above: [ /^<b>CLAIM\s+(\S+)<b>/i ] *)
Definition claim : RegExp.t :=
  bold +> Lit "CLAIM" +> ws +> word 1 +> bold.

(** Source pattern, <b> as above: [ /^<b>PROGRESS\s+(\S+)\s+(\d+)%?<b>/i ] *)
Definition progress : RegExp.t :=
  bold +> Lit "PROGRESS" +> ws +> word 1 +> ws
       +> Group 2 (Plus JsString.isDigit) +> Opt (Lit "%") +> bold.

(** Source pattern, <b> as above: [ /^<b>READY\s+(\S+)(?:\s+(\S+))?<b>/i ] *)
Definition ready : RegExp.t :=
  bold +> Lit "READY" +> ws +> word 1 +> Opt (ws +> word 2) +> bold.

(** Source pattern, <b> as above: [ /^<b>BLOCKED\s+(\S+)\s+(\S+)<b>/i ] *)
Definition blocked : RegExp.t :=
  bold +> Lit "BLOCKED" +> ws +> word 1 +> ws +> word 2 +> bold.

(** Source pattern, <b> as above: [ /^<b>ABORT\s+(\S+)(?:\s+(.+))?<b>/i ] *)
Definition abort : RegExp.t :=
  bold +> Lit "ABORT" +> ws +> word 1
       +> Opt (ws +> Group 2 (Plus JsString.isDot)) +> bold.

(** Source pattern, <b> as above: [ /^<b>AUDIT\s+(\S+)\s+(PASS|FAIL)(?:\s+(.+))?<b>/i ] *)
Definition audit : RegExp.t :=
  bold +> Lit "AUDIT" +> ws +> word 1 +> ws
       +> Group 2 (Alt (Lit "PASS") (Lit "FAIL"))
       +> Opt (ws +> Group 3 (Plus JsString.isDot)) +> bold.

End Patterns.

Definition MESSAGE_PATTERNS : list (MessageType * RegExp.t) :=
  [ (CLAIM, Patterns.claim);
    (PROGRESS, Patterns.progress);
    (READY, Patterns.ready);
    (BLOCKED, Patterns.blocked);
    (ABORT, Patterns.abort);
    (AUDIT, Patterns.audit) ].

(** The loop of [parseMessage] over the pattern table. *)
Fixpoint firstMatch (pats : list (MessageType * RegExp.t))
         (trimmed fromAgent : string) : option ParsedMessage :=
  match pats with
  | [] => None
  | (ty, pattern) :: rest =>
      match RegExp.exec pattern trimmed with
      | Some m =>
          Some {| type := ty;
                  component := option_map JsString.toLowerCase (m 1%nat);
                  agent := Some fromAgent;
                  value := JsString.orCapture (m 2%nat) (m 3%nat) |}
      | None => firstMatch rest trimmed fromAgent
      end
  end.

Definition parseMessage (content fromAgent : string) : option ParsedMessage :=
  firstMatch MESSAGE_PATTERNS (JsString.trim content) fromAgent.

(** [args[i]] inside a template literal. *)
Definition arg (i : nat) (args : list (option string)) : string :=
  JsString.interp (nth i args None).

(** [join] renders an [undefined] element as the empty string. *)
Definition joinArgs (sep : string) (args : list (option string)) : string :=
  JsString.join sep (map (fun a => match a with Some s => s | None => "" end) args).

Definition newline : string := String (ascii_of_nat 10) EmptyString.
Definition dquote : string := String (ascii_of_nat 34) EmptyString.

Definition formatMessage (ty : MessageType) (args : list (option string))
  : string :=
  match ty with
  | TASKS => "TASKS " ++ arg 0 args ++ newline
             ++ "Available components: " ++ joinArgs ", " (tl args)
  | ACK => "ACK " ++ arg 0 args ++ " " ++ arg 1 args
  | REJECT => "REJECT " ++ arg 0 args ++ " " ++ dquote ++ arg 1 args ++ dquote
  | MERGED => "MERGED " ++ arg 0 args
  | TIMEOUT => "TIMEOUT " ++ arg 0 args
  | _ => typeText ty ++ " " ++ joinArgs " " args
  end.

(** ** coordinator.ts *)

Record CoordinatorConfig : Type := mkConfig {
  progressTimeoutMs : Z;   (* Time before TIMEOUT (default: 10 min) *)
  claimExpiryMs : Z;       (* Claim expires without progress (default: 2 min) *)
  maxRetries : Z           (* Max audit failures before reassign *)
}.

Definition DEFAULT_CONFIG : CoordinatorConfig :=
  mkConfig (10 * 60 * 1000) (2 * 60 * 1000) 3.

(** Methods of [Coordinator]: they read and mutate [this.state] and call
    [this.sendMessage]; the messages are collected in call order. *)
Definition Eff (A : Type) : Type := BuildState -> A * BuildState * list string.

Definition ret {A : Type} (a : A) : Eff A := fun st => (a, st, []).

Definition bind {A B : Type} (m : Eff A) (f : A -> Eff B) : Eff B :=
  fun st =>
    let '(a, st1, out1) := m st in
    let '(b, st2, out2) := f a st1 in
    (b, st2, (out1 ++ out2)%list).

Notation "x <- m ;; k" := (bind m (fun x => k))
  (at level 61, m at next level, right associativity).
Notation "m ;; k" := (bind m (fun _ => k))
  (at level 61, right associativity).

Definition sendMessage (msg : string) : Eff unit := fun st => (tt, st, [msg]).

Definition getState : Eff BuildState := fun st => (st, st, []).

(** [this.state.components.get(key)] *)
Definition lookup (key : option string) : Eff (option Component) :=
  fun st => (CMap.getOpt key (components st), st, []).

(** Assignments to fields of the object found under [key]. *)
Definition mutate (key : option string) (f : Component -> Component)
  : Eff unit :=
  fun st => (tt, with_components (CMap.updateOpt key f (components st)) st, []).

(** The state and the messages an operation leaves behind. *)
Definition exec {A : Type} (m : Eff A) (st : BuildState) : BuildState :=
  snd (fst (m st)).
Definition sent {A : Type} (m : Eff A) (st : BuildState) : list string :=
  snd (m st).

Record ComponentDef : Type := mkDef {
  def_name : string;
  def_dependencies : list string
}.

Definition initialComponent (comp : ComponentDef) : Component :=
  {| name := def_name comp;
     status := pending;
     assignee := None;
     dependencies := map JsString.toLowerCase (def_dependencies comp);
     prUrl := None;
     claimedAt := None;
     lastProgress := None;
     retryCount := 0 |}.

(** The constructor; [now] is the [Date.now()] stored in [startedAt]. *)
Definition newCoordinator (url : string) (comps : list ComponentDef)
           (now : Z) : BuildState :=
  fold_left
    (fun st comp =>
       with_components
         (CMap.set (JsString.toLowerCase (def_name comp))
                   (initialComponent comp) (components st)) st)
    comps (mkState url [] now).

(** The loop of [dependenciesMet], leaving at the first unmet name. *)
Fixpoint depsLoop (m : CMap.t) (deps : list string) : bool :=
  match deps with
  | [] => true
  | depName :: rest =>
      match CMap.get depName m with
      | None => false
      | Some dep =>
          if negb (status_eqb (status dep) merged) then false
          else depsLoop m rest
      end
  end.

Definition dependenciesMet (st : BuildState) (comp : Component) : bool :=
  depsLoop (components st) (dependencies comp).

Definition getAvailableComponents (st : BuildState) : list Component :=
  fold_left
    (fun result comp =>
       if status_eqb (status comp) pending && dependenciesMet st comp
       then (result ++ [comp])%list else result)
    (CMap.values (components st)) [].

Definition broadcastTasks : Eff unit :=
  st <- getState ;;
  let available := getAvailableComponents st in
  sendMessage
    (formatMessage TASKS
       (Some (specUrl st) :: map (fun c => Some (name c)) available)).

Definition isComplete (st : BuildState) : bool :=
  forallb (fun comp => status_eqb (status comp) merged)
          (CMap.values (components st)).

(** The filter of [handleClaim] that lists the unmet dependencies. *)
Definition unmetDependencies (st : BuildState) (comp : Component)
  : list string :=
  filter
    (fun d =>
       match CMap.get d (components st) with
       | None => true
       | Some dep => negb (status_eqb (status dep) merged)
       end)
    (dependencies comp).

Definition handleClaim (now : Z) (msg : ParsedMessage) : Eff unit :=
  found <- lookup (component msg) ;;
  match found with
  | None =>
      sendMessage
        (formatMessage REJECT [component msg; Some "component not found"])
  | Some comp =>
      if negb (status_eqb (status comp) pending) then
        sendMessage
          (formatMessage REJECT
             [component msg;
              Some ("already " ++ statusText (status comp) ++ " by "
                    ++ JsString.orElse (assignee comp) "another agent")])
      else
        st <- getState ;;
        if negb (dependenciesMet st comp) then
          let unmet := unmetDependencies st comp in
          sendMessage
            (formatMessage REJECT
               [component msg;
                Some ("dependencies not met: " ++ JsString.join ", " unmet)])
        else
          mutate (component msg)
                 (fun c => set_claimedAt (Some now)
                             (set_assignee (agent msg)
                                (set_status claimed c))) ;;
          sendMessage (formatMessage ACK [component msg; agent msg])
  end.

(** [comp.assignee !== msg.agent] *)
Definition sameAgent (a b : option string) : bool :=
  match a, b with
  | Some x, Some y => String.eqb x y
  | None, None => true
  | _, _ => false
  end.

Definition handleProgress (now : Z) (msg : ParsedMessage) : Eff unit :=
  found <- lookup (component msg) ;;
  match found with
  | None => ret tt
  | Some comp =>
      if negb (sameAgent (assignee comp) (agent msg)) then ret tt
      else
        mutate (component msg)
               (fun c => set_lastProgress (Some now) (set_status building c))
  end.

Definition handleReady (msg : ParsedMessage) : Eff unit :=
  found <- lookup (component msg) ;;
  match found with
  | None => ret tt
  | Some comp =>
      if negb (sameAgent (assignee comp) (agent msg)) then ret tt
      else
        mutate (component msg)
               (fun c => set_prUrl (value msg) (set_status ready c))
  end.

(** Only writes to the console, which is not the protocol channel. *)
Definition handleBlocked (msg : ParsedMessage) : Eff unit := ret tt.

Definition handleAbort (msg : ParsedMessage) : Eff unit :=
  found <- lookup (component msg) ;;
  match found with
  | None => ret tt
  | Some comp =>
      if negb (sameAgent (assignee comp) (agent msg)) then ret tt
      else
        mutate (component msg)
               (fun c => set_claimedAt None
                           (set_assignee None (set_status pending c))) ;;
        broadcastTasks
  end.

(** [msg.value === 'PASS'] *)
Definition isPASS (v : option string) : bool :=
  match v with Some s => String.eqb s "PASS" | None => false end.

Definition handleAudit (cfg : CoordinatorConfig) (msg : ParsedMessage)
  : Eff unit :=
  found <- lookup (component msg) ;;
  match found with
  | None => ret tt
  | Some comp =>
      if isPASS (value msg) then
        mutate (component msg) (set_status merged) ;;
        sendMessage (formatMessage MERGED [component msg]) ;;
        broadcastTasks ;;
        st <- getState ;;
        if isComplete st
        then sendMessage ("BUILD COMPLETE " ++ specUrl st)
        else ret tt
      else
        let count := retryCount comp + 1 in
        mutate (component msg) (set_retryCount count) ;;
        if maxRetries cfg <=? count then
          mutate (component msg)
                 (fun c => set_assignee None (set_status pending c)) ;;
          sendMessage (formatMessage RETRY [component msg])
        else
          mutate (component msg) (set_status building)
  end.

Definition handleMessage (cfg : CoordinatorConfig) (now : Z)
           (content fromAgent : string) : Eff unit :=
  match parseMessage content fromAgent with
  | None => ret tt
  | Some parsed =>
      match type parsed with
      | CLAIM => handleClaim now parsed
      | PROGRESS => handleProgress now parsed
      | READY => handleReady parsed
      | BLOCKED => handleBlocked parsed
      | ABORT => handleAbort parsed
      | AUDIT => handleAudit cfg parsed
      | _ => ret tt
      end
  end.

(** First check of the sweep, on one component: claim expiry.  A time
    stamp passes the guard when it is defined and not 0. *)
Definition checkClaimExpiry (cfg : CoordinatorConfig) (now : Z)
           (comp : Component) : Component * list string :=
  if status_eqb (status comp) claimed then
    match claimedAt comp with
    | Some t =>
        if negb (t =? 0) && (claimExpiryMs cfg <? now - t) then
          (set_claimedAt None (set_assignee None (set_status pending comp)),
           [formatMessage TIMEOUT [Some (name comp)]])
        else (comp, [])
    | None => (comp, [])
    end
  else (comp, []).

(** Second check, on the component as the first check left it. *)
Definition checkProgressTimeout (cfg : CoordinatorConfig) (now : Z)
           (comp : Component) : Component * list string :=
  if status_eqb (status comp) building then
    match lastProgress comp with
    | Some t =>
        if negb (t =? 0) && (progressTimeoutMs cfg <? now - t) then
          (set_lastProgress None (set_assignee None (set_status pending comp)),
           [formatMessage TIMEOUT [Some (name comp)]])
        else (comp, [])
    | None => (comp, [])
    end
  else (comp, []).

Definition sweepComponent (cfg : CoordinatorConfig) (now : Z)
           (comp : Component) : Component * list string :=
  let '(comp1, out1) := checkClaimExpiry cfg now comp in
  let '(comp2, out2) := checkProgressTimeout cfg now comp1 in
  (comp2, (out1 ++ out2)%list).

(** The loop over [components.values()], each object mutated in place. *)
Fixpoint sweepEntries (cfg : CoordinatorConfig) (now : Z) (m : CMap.t)
  : CMap.t * list string :=
  match m with
  | [] => ([], [])
  | (k, comp) :: rest =>
      let '(comp', out) := sweepComponent cfg now comp in
      let '(rest', outs) := sweepEntries cfg now rest in
      ((k, comp') :: rest', (out ++ outs)%list)
  end.

Definition checkTimeouts (cfg : CoordinatorConfig) (now : Z) : Eff unit :=
  fun st =>
    let '(m, out) := sweepEntries cfg now (components st) in
    (tt, with_components m st, out).

(** ** Histories of a coordinator *)

Inductive Op : Type :=
| Message (content fromAgent : string) (now : Z)
| Sweep (now : Z)
| Broadcast.

Definition step (cfg : CoordinatorConfig) (op : Op) : Eff unit :=
  match op with
  | Message content fromAgent now => handleMessage cfg now content fromAgent
  | Sweep now => checkTimeouts cfg now
  | Broadcast => broadcastTasks
  end.

Fixpoint runOps (cfg : CoordinatorConfig) (ops : list Op) : Eff unit :=
  match ops with
  | [] => ret tt
  | op :: rest => step cfg op ;; runOps cfg rest
  end.

(** States a coordinator built by the constructor can be in. *)
Definition reachable (cfg : CoordinatorConfig) (st : BuildState) : Prop :=
  exists url comps t0 ops,
    st = exec (runOps cfg ops) (newCoordinator url comps t0).

(** ** The registry queries as the specification words them *)

(** A dependency name resolves to an existing component that is merged. *)
Definition depMerged (st : BuildState) (d : string) : Prop :=
  exists dep, CMap.get d (components st) = Some dep /\ status dep = merged.

Definition depMergedb (st : BuildState) (d : string) : bool :=
  match CMap.get d (components st) with
  | Some dep => status_eqb (status dep) merged
  | None => false
  end.

(** DependenciesSatisfied: every named dependency resolves to an existing
    component whose status is merged. *)
Definition DependenciesSatisfied (st : BuildState) (c : Component) : Prop :=
  forall d, In d (dependencies c) -> depMerged st d.

(** Claimable: every component with status pending and DependenciesSatisfied
    true, in the iteration order of the registry. *)
Definition Claimable (st : BuildState) : list Component :=
  filter (fun c => status_eqb (status c) pending
                   && forallb (depMergedb st) (dependencies c))
         (CMap.values (components st)).

(** ** Transitions of one component

    Every way an operation of the coordinator can rewrite one component
    object, with the guard under which the source does it.  The lemma
    [step_evolves] below shows that the operations do nothing else. *)
Inductive transition (cfg : CoordinatorConfig) (c : Component)
  : Component -> Prop :=
| t_stay : transition cfg c c
| t_claim (a : string) (now : Z) :
    status c = pending ->
    transition cfg c
      (set_claimedAt (Some now) (set_assignee (Some a) (set_status claimed c)))
| t_progress (a : string) (now : Z) :
    assignee c = Some a ->
    transition cfg c (set_lastProgress (Some now) (set_status building c))
| t_ready (a : string) (v : option string) :
    assignee c = Some a ->
    transition cfg c (set_prUrl v (set_status ready c))
| t_abort (a : string) :
    assignee c = Some a ->
    transition cfg c
      (set_claimedAt None (set_assignee None (set_status pending c)))
| t_merge : transition cfg c (set_status merged c)
| t_retry :
    maxRetries cfg <= retryCount c + 1 ->
    transition cfg c
      (set_assignee None
         (set_status pending (set_retryCount (retryCount c + 1) c)))
| t_rebuild :
    retryCount c + 1 < maxRetries cfg ->
    transition cfg c
      (set_status building (set_retryCount (retryCount c + 1) c))
| t_claim_expiry :
    status c = claimed ->
    transition cfg c
      (set_claimedAt None (set_assignee None (set_status pending c)))
| t_progress_timeout :
    status c = building ->
    transition cfg c
      (set_lastProgress None (set_assignee None (set_status pending c))).

(** Two maps with the same keys in the same order, each component of the
    second one transition away from its counterpart in the first. *)
Definition evolves (cfg : CoordinatorConfig) (m m' : CMap.t) : Prop :=
  Forall2 (fun e e' => fst e = fst e' /\ transition cfg (snd e) (snd e')) m m'.

(** ** Builds and histories used as concrete instances *)

Module Scenario.

(** One component without dependencies. *)
Definition single : BuildState := newCoordinator "spec" [mkDef "A" []] 0.

(** [B] depends on [A] and on a name that matches no component. *)
Definition dangling : BuildState :=
  newCoordinator "spec" [mkDef "A" []; mkDef "B" ["A"; "Ghost"]] 0.

Definition claimThenPass : list Op :=
  [Message "CLAIM a" "agent1" 1000; Message "AUDIT a PASS" "reviewer" 2000].

Definition threeFails : list Op :=
  [Message "AUDIT a FAIL" "reviewer" 1000;
   Message "AUDIT a FAIL" "reviewer" 2000;
   Message "AUDIT a FAIL" "reviewer" 3000].

Definition after (ops : list Op) (st : BuildState) : BuildState :=
  exec (runOps DEFAULT_CONFIG ops) st.

Definition claimByAgent1 : ParsedMessage :=
  mkParsed CLAIM (Some "a") (Some "agent1") None.

Definition abortByAgent1 : ParsedMessage :=
  mkParsed ABORT (Some "a") (Some "agent1") None.

Definition auditFail : ParsedMessage :=
  mkParsed AUDIT (Some "a") (Some "reviewer") (Some "FAIL").

Definition auditPass : ParsedMessage :=
  mkParsed AUDIT (Some "a") (Some "reviewer") (Some "PASS").

Definition claimProgress : list Op :=
  [Message "CLAIM a" "agent1" 1000; Message "PROGRESS a 10%" "agent1" 2000].

Definition reclaimed : list Op :=
  [Message "CLAIM a" "agent1" 1000;
   Message "PROGRESS a 10%" "agent1" 2000;
   Message "ABORT a" "agent1" 3000;
   Message "CLAIM a" "agent2" 4000].

Definition twoFails : list Op :=
  [Message "AUDIT a FAIL" "reviewer" 1000;
   Message "AUDIT a FAIL" "reviewer" 2000].


End Scenario.

(** C2 as stated, for one component. *)
Definition assigneeIffActive (c : Component) : Prop :=
  assignee c <> None <-> In (status c) [claimed; building; ready; auditing].

(** ** Vocabulary for the properties of the codec and of the engine *)

(** A string made of white space only. *)
Fixpoint allSpace (s : string) : bool :=
  match s with
  | EmptyString => true
  | String c s' => JsString.isSpace c && allSpace s'
  end.

(** Group [n] sits on every path through [r]: it is [r] itself or lies in
    a mandatory part of a sequence. *)
Fixpoint binds (n : nat) (r : RegExp.t) : bool :=
  match r with
  | RegExp.Group m r' => Nat.eqb m n || binds n r'
  | RegExp.Seq r1 r2 => binds n r1 || binds n r2
  | _ => false
  end.

(** The message types [parseMessage] can produce. *)
Definition inboundTypes : list MessageType :=
  [CLAIM; PROGRESS; READY; BLOCKED; ABORT; AUDIT].

(** The message types the coordinator renders. *)
Definition outboundTypes : list MessageType :=
  [TASKS; ACK; REJECT; MERGED; TIMEOUT; RETRY].

(** A line that begins with neither white space nor an asterisk (or is
    empty). *)
Definition startsPlain (t : string) : bool :=
  match t with
  | EmptyString => true
  | String c _ => negb (JsString.isSpace c) && negb (Ascii.eqb c "*")
  end.

(** The two tests of the sweep, read as one predicate on a component:
    its claim has expired or its progress has stalled. *)
Definition timedOut (cfg : CoordinatorConfig) (now : Z) (c : Component)
  : Prop :=
  (status c = claimed
   /\ exists t, claimedAt c = Some t /\ t <> 0 /\ claimExpiryMs cfg < now - t)
  \/ (status c = building
      /\ exists t, lastProgress c = Some t /\ t <> 0
                   /\ progressTimeoutMs cfg < now - t).

Definition timedOutb (cfg : CoordinatorConfig) (now : Z) (c : Component)
  : bool :=
  match status c with
  | claimed =>
      match claimedAt c with
      | Some t => negb (t =? 0) && (claimExpiryMs cfg <? now - t)
      | None => false
      end
  | building =>
      match lastProgress c with
      | Some t => negb (t =? 0) && (progressTimeoutMs cfg <? now - t)
      | None => false
      end
  | _ => false
  end.

(** The same call made [n] times in a row. *)
Fixpoint repeatEff (n : nat) (m : Eff unit) : Eff unit :=
  match n with
  | O => ret tt
  | S n' => m ;; repeatEff n' m
  end.

(** The key a definition is stored under, and the map entry it makes. *)
Definition keyOf (d : ComponentDef) : string :=
  JsString.toLowerCase (def_name d).

Definition entryOf (d : ComponentDef) : string * Component :=
  (keyOf d, initialComponent d).

Definition noDependencies (d : ComponentDef) : bool :=
  match def_dependencies d with [] => true | _ :: _ => false end.

(** What an operation never rewrites in a map entry: the key, the display
    name and the dependency names. *)
Definition identityOf (e : string * Component)
  : string * string * list string :=
  (fst e, name (snd e), dependencies (snd e)).

(** The text begins with the keyword, in any letter case, possibly after
    one bold marker. *)
Definition beginsWith (keyword text : string) : Prop :=
  (exists rest, RegExp.lit keyword text = Some rest)
  \/ (exists u rest, RegExp.lit "**" text = Some u
                     /\ RegExp.lit keyword u = Some rest).

(** A text the coordinator can send: a rendered outbound type or the
    build-complete notice. *)
Definition outboundText (m : string) : Prop :=
  (exists ty args, In ty outboundTypes /\ m = formatMessage ty args)
  \/ (exists url, m = "BUILD COMPLETE " ++ url).

(** ** Basic facts *)

Lemma status_eqb_eq (a b : ComponentStatus) : status_eqb a b = true <-> a = b.
Proof. destruct a, b; simpl; split; intro H; try reflexivity; discriminate. Qed.

Lemma status_eqb_neq (a b : ComponentStatus) :
  status_eqb a b = false <-> a <> b.
Proof.
  destruct a, b; simpl; split; intro H; try reflexivity; try discriminate;
    try (exfalso; apply H; reflexivity).
Qed.

Module CMapFacts.

Lemma get_update_same (k : string) f (m : CMap.t) :
  CMap.get k (CMap.update k f m) = option_map f (CMap.get k m).
Proof.
  induction m as [|[k' c] m IH]; simpl; [reflexivity|].
  destruct (String.eqb k k') eqn:E; simpl; rewrite E; auto.
Qed.

Lemma get_update_other (k k' : string) f (m : CMap.t) :
  k <> k' -> CMap.get k' (CMap.update k f m) = CMap.get k' m.
Proof.
  intro Hne. induction m as [|[k0 c] m IH]; simpl; [reflexivity|].
  destruct (String.eqb k k0) eqn:E; simpl.
  - apply String.eqb_eq in E. subst k0.
    destruct (String.eqb k' k) eqn:E'; [|reflexivity].
    apply String.eqb_eq in E'. congruence.
  - destruct (String.eqb k' k0); auto.
Qed.

Lemma update_update (k : string) f g (m : CMap.t) :
  CMap.update k g (CMap.update k f m) = CMap.update k (fun c => g (f c)) m.
Proof.
  induction m as [|[k' c] m IH]; simpl; [reflexivity|].
  destruct (String.eqb k k') eqn:E; simpl; rewrite E; [reflexivity|].
  now rewrite IH.
Qed.

Lemma get_In (k : string) (m : CMap.t) (c : Component) :
  CMap.get k m = Some c -> In c (CMap.values m).
Proof.
  induction m as [|[k' c'] m IH]; simpl; [discriminate|].
  destruct (String.eqb k k').
  - intro H. left. congruence.
  - intro H. right. auto.
Qed.

End CMapFacts.

Lemma depMergedb_spec (st : BuildState) (d : string) :
  depMergedb st d = true <-> depMerged st d.
Proof.
  unfold depMergedb, depMerged. split.
  - destruct (CMap.get d (components st)) as [dep|]; [|discriminate].
    intro H. exists dep. split; [reflexivity|]. now apply status_eqb_eq.
  - intros [dep [-> H]]. now apply status_eqb_eq.
Qed.

(** The early-exit loop decides the same thing as the conjunction over all
    dependency names. *)
Lemma depsLoop_forallb (st : BuildState) (deps : list string) :
  depsLoop (components st) deps = forallb (depMergedb st) deps.
Proof.
  induction deps as [|d deps IH]; simpl; [reflexivity|].
  unfold depMergedb at 1.
  destruct (CMap.get d (components st)) as [dep|]; [|reflexivity].
  destruct (status_eqb (status dep) merged); simpl; auto.
Qed.

Lemma dependenciesMet_spec (st : BuildState) (c : Component) :
  dependenciesMet st c = true <-> DependenciesSatisfied st c.
Proof.
  unfold dependenciesMet, DependenciesSatisfied.
  rewrite depsLoop_forallb, forallb_forall.
  split; intros H d Hd.
  - apply depMergedb_spec. auto.
  - apply depMergedb_spec. auto.
Qed.

(** The push loop builds the filtered list, in iteration order. *)
Lemma push_loop_filter {A : Type} (p : A -> bool) (xs acc : list A) :
  fold_left (fun result x => if p x then (result ++ [x])%list else result)
            xs acc
  = (acc ++ filter p xs)%list.
Proof.
  revert acc. induction xs as [|x xs IH]; intro acc; simpl.
  - now rewrite app_nil_r.
  - rewrite IH. destruct (p x); [|reflexivity].
    now rewrite <- app_assoc.
Qed.

(** ** The claimable-components query *)

(** C6. [getAvailableComponents] returns exactly the components that are
    pending and whose every dependency name resolves to an existing merged
    component, in insertion order; a component with a dependency name that
    matches no component is never listed, whatever the state of the others. *)
Theorem getAvailableComponents_claimable (st : BuildState) :
  getAvailableComponents st = Claimable st
  /\ (forall c, In c (getAvailableComponents st) <->
                In c (CMap.values (components st))
                /\ status c = pending /\ DependenciesSatisfied st c)
  /\ (forall c d, In d (dependencies c) ->
                  CMap.get d (components st) = None ->
                  ~ In c (getAvailableComponents st)).
Proof.
  assert (Heq : getAvailableComponents st = Claimable st).
  { unfold getAvailableComponents, Claimable.
    rewrite push_loop_filter. simpl.
    apply filter_ext. intro c. unfold dependenciesMet.
    now rewrite depsLoop_forallb. }
  assert (Hin : forall c, In c (getAvailableComponents st) <->
                In c (CMap.values (components st))
                /\ status c = pending /\ DependenciesSatisfied st c).
  { intro c. rewrite Heq. unfold Claimable. rewrite filter_In.
    rewrite andb_true_iff, status_eqb_eq.
    rewrite <- dependenciesMet_spec. unfold dependenciesMet.
    rewrite depsLoop_forallb. tauto. }
  split; [exact Heq|]. split; [exact Hin|].
  intros c d Hd Hnone Hc. apply Hin in Hc.
  destruct Hc as [_ [_ Hsat]]. destruct (Hsat d Hd) as [dep [Hget _]].
  congruence.
Qed.

(** ** The timeout sweep *)

Lemma sweepComponent_settled (cfg : CoordinatorConfig) (now : Z)
      (c : Component) :
  sweepComponent cfg now (fst (sweepComponent cfg now c))
  = (fst (sweepComponent cfg now c), []).
Proof.
  unfold sweepComponent, checkClaimExpiry, checkProgressTimeout.
  destruct c as [nm st asg deps pr ca lp rc]; simpl.
  destruct st; simpl; try reflexivity.
  - destruct ca as [t|]; simpl; [|reflexivity].
    destruct (negb (t =? 0) && (claimExpiryMs cfg <? now - t)) eqn:E; simpl;
      [reflexivity|].
    now rewrite E.
  - destruct lp as [t|]; simpl; [|reflexivity].
    destruct (negb (t =? 0) && (progressTimeoutMs cfg <? now - t)) eqn:E; simpl;
      [reflexivity|].
    now rewrite E.
Qed.

Lemma sweepEntries_settled (cfg : CoordinatorConfig) (now : Z) (m : CMap.t) :
  sweepEntries cfg now (fst (sweepEntries cfg now m))
  = (fst (sweepEntries cfg now m), []).
Proof.
  induction m as [|[k c] m IH]; simpl; [reflexivity|].
  pose proof (sweepComponent_settled cfg now c) as Hc.
  destruct (sweepComponent cfg now c) as [c1 out1].
  destruct (sweepEntries cfg now m) as [m1 outs1].
  simpl in *. rewrite Hc, IH. reflexivity.
Qed.

(** C7. Running the sweep a second time against the same [now] leaves the
    state of the first run in place and sends nothing. *)
Theorem checkTimeouts_idempotent (cfg : CoordinatorConfig) (now : Z)
        (st : BuildState) :
  exec (checkTimeouts cfg now) (exec (checkTimeouts cfg now) st)
  = exec (checkTimeouts cfg now) st
  /\ sent (checkTimeouts cfg now) (exec (checkTimeouts cfg now) st) = [].
Proof.
  unfold exec, sent, checkTimeouts.
  pose proof (sweepEntries_settled cfg now (components st)) as H.
  destruct (sweepEntries cfg now (components st)) as [m1 out1].
  simpl in *. rewrite H. simpl. split; reflexivity.
Qed.

(** ** CLAIM *)

Lemma unmetDependencies_filter (st : BuildState) (comp : Component) :
  unmetDependencies st comp
  = filter (fun d => negb (depMergedb st d)) (dependencies comp).
Proof.
  unfold unmetDependencies. apply filter_ext. intro d. unfold depMergedb.
  destruct (CMap.get d (components st)); reflexivity.
Qed.

Lemma getOpt_Some_key (key : option string) (m : CMap.t) (c : Component) :
  CMap.getOpt key m = Some c -> exists k, key = Some k /\ CMap.get k m = Some c.
Proof. destruct key as [k|]; simpl; [eauto | discriminate]. Qed.

(** The four ways [handleClaim] can run. *)
Lemma handleClaim_run (now : Z) (msg : ParsedMessage) (st : BuildState) :
  handleClaim now msg st =
  match CMap.getOpt (component msg) (components st) with
  | None =>
      (tt, st,
       [formatMessage REJECT [component msg; Some "component not found"]])
  | Some comp =>
      if negb (status_eqb (status comp) pending) then
        (tt, st,
         [formatMessage REJECT
            [component msg;
             Some ("already " ++ statusText (status comp) ++ " by "
                   ++ JsString.orElse (assignee comp) "another agent")]])
      else if negb (dependenciesMet st comp) then
        (tt, st,
         [formatMessage REJECT
            [component msg;
             Some ("dependencies not met: "
                   ++ JsString.join ", " (unmetDependencies st comp))]])
      else
        (tt,
         with_components
           (CMap.updateOpt (component msg)
              (fun c => set_claimedAt (Some now)
                          (set_assignee (agent msg) (set_status claimed c)))
              (components st)) st,
         [formatMessage ACK [component msg; agent msg]])
  end.
Proof.
  unfold handleClaim, bind, lookup, getState, sendMessage, mutate. simpl.
  destruct (CMap.getOpt (component msg) (components st)) as [comp|];
    [|reflexivity].
  destruct (negb (status_eqb (status comp) pending)); [reflexivity|].
  destruct (negb (dependenciesMet st comp)); reflexivity.
Qed.

(** C1. Every CLAIM is answered by exactly one message: REJECT "component
    not found" for an unknown name; REJECT citing the current status and
    assignee when the component is not pending; REJECT listing the unmet
    dependency names when some dependency is not merged; otherwise the
    component becomes claimed by the sender at the current time and one
    ACK naming the component and the sender is sent. *)
Theorem handleClaim_outcome (now : Z) (msg : ParsedMessage) (st : BuildState) :
  let key := component msg in
  let found := CMap.getOpt key (components st) in
  let st' := exec (handleClaim now msg) st in
  let out := sent (handleClaim now msg) st in
  (found = None ->
     st' = st
     /\ out = [formatMessage REJECT [key; Some "component not found"]])
  /\ (forall comp, found = Some comp -> status comp <> pending ->
        st' = st
        /\ out = [formatMessage REJECT
                    [key;
                     Some ("already " ++ statusText (status comp) ++ " by "
                           ++ JsString.orElse (assignee comp)
                                              "another agent")]])
  /\ (forall comp, found = Some comp -> status comp = pending ->
        ~ DependenciesSatisfied st comp ->
        let unmet := filter (fun d => negb (depMergedb st d))
                            (dependencies comp) in
        st' = st
        /\ unmet <> []
        /\ out = [formatMessage REJECT
                    [key;
                     Some ("dependencies not met: "
                           ++ JsString.join ", " unmet)]])
  /\ (forall comp, found = Some comp -> status comp = pending ->
        DependenciesSatisfied st comp ->
        CMap.getOpt key (components st')
        = Some (mkComponent (name comp) claimed (agent msg)
                  (dependencies comp) (prUrl comp) (Some now)
                  (lastProgress comp) (retryCount comp))
        /\ (forall k, Some k <> key ->
              CMap.get k (components st') = CMap.get k (components st))
        /\ out = [formatMessage ACK [key; agent msg]])
  /\ length out = 1%nat.
Proof.
  cbv zeta. unfold exec, sent. rewrite handleClaim_run.
  destruct (CMap.getOpt (component msg) (components st)) as [comp|] eqn:Hget.
  - destruct (status_eqb (status comp) pending) eqn:Hst; simpl.
    + apply status_eqb_eq in Hst.
      destruct (dependenciesMet st comp) eqn:Hdeps; simpl.
      * apply dependenciesMet_spec in Hdeps.
        split; [discriminate|].
        split; [intros c Hc Hn; inversion Hc; subst; contradiction|].
        split; [intros c Hc _ Hn; inversion Hc; subst; contradiction|].
        split; [|reflexivity].
        intros c Hc _ _. inversion Hc; subst c; clear Hc.
        destruct (getOpt_Some_key _ _ _ Hget) as [k [Hk Hgk]].
        rewrite Hk. simpl. split; [|split; [|reflexivity]].
        -- rewrite CMapFacts.get_update_same, Hgk. reflexivity.
        -- intros k' Hne. apply CMapFacts.get_update_other. congruence.
      * split; [discriminate|].
        split; [intros c Hc Hn; inversion Hc; subst; contradiction|].
        split; [|split; [|reflexivity]].
        -- intros c Hc _ Hn. inversion Hc; subst c; clear Hc.
           rewrite unmetDependencies_filter.
           split; [reflexivity|]. split; [|reflexivity].
           intro Hnil. apply Hn. intros d Hd.
           apply depMergedb_spec.
           destruct (depMergedb st d) eqn:Hd'; [reflexivity|].
           assert (Hin : In d (filter (fun d => negb (depMergedb st d))
                                      (dependencies comp))).
           { apply filter_In. rewrite Hd'. auto. }
           rewrite Hnil in Hin. destruct Hin.
        -- intros c Hc _ Hs. inversion Hc; subst c.
           apply dependenciesMet_spec in Hs. congruence.
    + apply status_eqb_neq in Hst.
      split; [discriminate|].
      split; [intros c Hc _; inversion Hc; subst; auto|].
      split; [intros c Hc Hp; inversion Hc; subst; contradiction|].
      split; [intros c Hc Hp; inversion Hc; subst; contradiction|].
      reflexivity.
  - simpl. split; [auto|].
    split; [discriminate|]. split; [discriminate|].
    split; [discriminate|reflexivity].
Qed.

(** ** Operations as transitions of components *)

Lemma exec_bind {A B : Type} (m : Eff A) (k : Eff B) (st : BuildState) :
  exec (m ;; k) st = exec k (exec m st).
Proof.
  unfold exec, bind. destruct (m st) as [[a st1] out1]. simpl.
  destruct (k st1) as [[b st2] out2]. reflexivity.
Qed.

Lemma firstMatch_agent pats (trimmed fromAgent : string) (m : ParsedMessage) :
  firstMatch pats trimmed fromAgent = Some m -> agent m = Some fromAgent.
Proof.
  induction pats as [|[ty pattern] pats IH]; simpl; [discriminate|].
  destruct (RegExp.exec pattern trimmed).
  - intro H. inversion H. reflexivity.
  - exact IH.
Qed.

(** Every event carries the sender the caller passed in. *)
Lemma parseMessage_agent (content fromAgent : string) (m : ParsedMessage) :
  parseMessage content fromAgent = Some m -> agent m = Some fromAgent.
Proof. apply firstMatch_agent. Qed.

Lemma sameAgent_Some (a : option string) (b : string) :
  sameAgent a (Some b) = true -> a = Some b.
Proof.
  destruct a as [x|]; simpl; [|discriminate].
  intro H. apply String.eqb_eq in H. now subst.
Qed.

Lemma handleProgress_run (now : Z) (msg : ParsedMessage) (st : BuildState) :
  handleProgress now msg st =
  match CMap.getOpt (component msg) (components st) with
  | None => (tt, st, [])
  | Some comp =>
      if sameAgent (assignee comp) (agent msg) then
        (tt,
         with_components
           (CMap.updateOpt (component msg)
              (fun c => set_lastProgress (Some now) (set_status building c))
              (components st)) st, [])
      else (tt, st, [])
  end.
Proof.
  unfold handleProgress, bind, lookup, mutate, ret. simpl.
  destruct (CMap.getOpt (component msg) (components st)) as [comp|];
    [|reflexivity].
  destruct (sameAgent (assignee comp) (agent msg)); reflexivity.
Qed.

Lemma handleReady_run (msg : ParsedMessage) (st : BuildState) :
  handleReady msg st =
  match CMap.getOpt (component msg) (components st) with
  | None => (tt, st, [])
  | Some comp =>
      if sameAgent (assignee comp) (agent msg) then
        (tt,
         with_components
           (CMap.updateOpt (component msg)
              (fun c => set_prUrl (value msg) (set_status ready c))
              (components st)) st, [])
      else (tt, st, [])
  end.
Proof.
  unfold handleReady, bind, lookup, mutate, ret. simpl.
  destruct (CMap.getOpt (component msg) (components st)) as [comp|];
    [|reflexivity].
  destruct (sameAgent (assignee comp) (agent msg)); reflexivity.
Qed.

Lemma handleAbort_run (msg : ParsedMessage) (st : BuildState) :
  handleAbort msg st =
  match CMap.getOpt (component msg) (components st) with
  | None => (tt, st, [])
  | Some comp =>
      if sameAgent (assignee comp) (agent msg) then
        let st' :=
          with_components
            (CMap.updateOpt (component msg)
               (fun c => set_claimedAt None
                           (set_assignee None (set_status pending c)))
               (components st)) st in
        (tt, st', sent broadcastTasks st')
      else (tt, st, [])
  end.
Proof.
  unfold handleAbort, bind, lookup, mutate, ret, sent. simpl.
  destruct (CMap.getOpt (component msg) (components st)) as [comp|];
    [|reflexivity].
  destruct (sameAgent (assignee comp) (agent msg)); reflexivity.
Qed.

Lemma updateOpt_updateOpt (key : option string) f g (m : CMap.t) :
  CMap.updateOpt key g (CMap.updateOpt key f m)
  = CMap.updateOpt key (fun c => g (f c)) m.
Proof. destruct key; simpl; [apply CMapFacts.update_update | reflexivity]. Qed.

(** The state [handleAudit] leaves behind. *)
Lemma handleAudit_state (cfg : CoordinatorConfig) (msg : ParsedMessage)
      (st : BuildState) :
  exec (handleAudit cfg msg) st =
  match CMap.getOpt (component msg) (components st) with
  | None => st
  | Some comp =>
      let change :=
        if isPASS (value msg) then set_status merged
        else if maxRetries cfg <=? retryCount comp + 1 then
          fun c => set_assignee None
                     (set_status pending
                        (set_retryCount (retryCount comp + 1) c))
        else
          fun c => set_status building
                     (set_retryCount (retryCount comp + 1) c) in
      with_components
        (CMap.updateOpt (component msg) change (components st)) st
  end.
Proof.
  unfold handleAudit, exec, bind, lookup, mutate, sendMessage, broadcastTasks,
    getState, ret, bind. simpl.
  destruct (CMap.getOpt (component msg) (components st)) as [comp|];
    [|reflexivity].
  destruct (isPASS (value msg)); simpl.
  - match goal with |- context [isComplete ?s] => destruct (isComplete s) end;
      reflexivity.
  - destruct (maxRetries cfg <=? retryCount comp + 1); simpl;
      unfold with_components; simpl; rewrite updateOpt_updateOpt; reflexivity.
Qed.

Lemma evolves_refl (cfg : CoordinatorConfig) (m : CMap.t) : evolves cfg m m.
Proof.
  induction m as [|e m IH]; constructor; auto.
  split; [reflexivity | apply t_stay].
Qed.

Lemma evolves_update (cfg : CoordinatorConfig) (k : string) f (m : CMap.t)
      (c : Component) :
  CMap.get k m = Some c -> transition cfg c (f c) ->
  evolves cfg m (CMap.update k f m).
Proof.
  induction m as [|[k' c'] m IH]; simpl; [discriminate|].
  destruct (String.eqb k k').
  - intros H Ht. inversion H; subst c'. constructor.
    + split; [reflexivity | exact Ht].
    + apply evolves_refl.
  - intros H Ht. constructor.
    + split; [reflexivity | apply t_stay].
    + apply IH; assumption.
Qed.

Lemma evolves_updateOpt (cfg : CoordinatorConfig) (key : option string) f
      (m : CMap.t) (c : Component) :
  CMap.getOpt key m = Some c -> transition cfg c (f c) ->
  evolves cfg m (CMap.updateOpt key f m).
Proof.
  destruct key as [k|]; simpl; [apply evolves_update | discriminate].
Qed.

Lemma sweepComponent_transition (cfg : CoordinatorConfig) (now : Z)
      (c : Component) :
  transition cfg c (fst (sweepComponent cfg now c)).
Proof.
  unfold sweepComponent, checkClaimExpiry, checkProgressTimeout.
  destruct (status_eqb (status c) claimed) eqn:Hc.
  - apply status_eqb_eq in Hc.
    destruct (claimedAt c) as [t|].
    + destruct (negb (t =? 0) && (claimExpiryMs cfg <? now - t)); simpl.
      * now apply t_claim_expiry.
      * rewrite Hc. simpl. apply t_stay.
    + rewrite Hc. simpl. apply t_stay.
  - destruct (status_eqb (status c) building) eqn:Hb; [|apply t_stay].
    apply status_eqb_eq in Hb.
    destruct (lastProgress c) as [t|]; [|apply t_stay].
    destruct (negb (t =? 0) && (progressTimeoutMs cfg <? now - t)); simpl.
    + now apply t_progress_timeout.
    + apply t_stay.
Qed.

Lemma sweepEntries_evolves (cfg : CoordinatorConfig) (now : Z) (m : CMap.t) :
  evolves cfg m (fst (sweepEntries cfg now m)).
Proof.
  induction m as [|[k c] m IH]; simpl; [constructor|].
  pose proof (sweepComponent_transition cfg now c) as Hc.
  destruct (sweepComponent cfg now c) as [c1 out1].
  destruct (sweepEntries cfg now m) as [m1 outs1]. simpl in *.
  constructor; auto.
Qed.

Lemma handleMessage_evolves (cfg : CoordinatorConfig) (now : Z)
      (content fromAgent : string) (st : BuildState) :
  evolves cfg (components st)
          (components (exec (handleMessage cfg now content fromAgent) st)).
Proof.
  unfold handleMessage.
  destruct (parseMessage content fromAgent) as [msg|] eqn:Hparse;
    [|apply evolves_refl].
  apply parseMessage_agent in Hparse.
  destruct (type msg); try apply evolves_refl.
  - (* CLAIM *)
    unfold exec. rewrite handleClaim_run.
    destruct (CMap.getOpt (component msg) (components st)) as [comp|] eqn:Hget;
      [|apply evolves_refl].
    destruct (status_eqb (status comp) pending) eqn:Hs; simpl;
      [|apply evolves_refl].
    destruct (dependenciesMet st comp); simpl; [|apply evolves_refl].
    apply evolves_updateOpt with (c := comp); [exact Hget|].
    rewrite Hparse. apply t_claim. now apply status_eqb_eq.
  - (* PROGRESS *)
    unfold exec. rewrite handleProgress_run.
    destruct (CMap.getOpt (component msg) (components st)) as [comp|] eqn:Hget;
      [|apply evolves_refl].
    destruct (sameAgent (assignee comp) (agent msg)) eqn:Hs; simpl;
      [|apply evolves_refl].
    rewrite Hparse in Hs. apply sameAgent_Some in Hs.
    apply evolves_updateOpt with (c := comp); [exact Hget|].
    now apply t_progress with (a := fromAgent).
  - (* READY *)
    unfold exec. rewrite handleReady_run.
    destruct (CMap.getOpt (component msg) (components st)) as [comp|] eqn:Hget;
      [|apply evolves_refl].
    destruct (sameAgent (assignee comp) (agent msg)) eqn:Hs; simpl;
      [|apply evolves_refl].
    rewrite Hparse in Hs. apply sameAgent_Some in Hs.
    apply evolves_updateOpt with (c := comp); [exact Hget|].
    now apply t_ready with (a := fromAgent).
  - (* AUDIT *)
    rewrite handleAudit_state.
    destruct (CMap.getOpt (component msg) (components st)) as [comp|] eqn:Hget;
      [|apply evolves_refl].
    simpl. apply evolves_updateOpt with (c := comp); [exact Hget|].
    destruct (isPASS (value msg)); [apply t_merge|].
    destruct (maxRetries cfg <=? retryCount comp + 1) eqn:Hr.
    + apply t_retry. lia.
    + apply t_rebuild. lia.
  - (* ABORT *)
    unfold exec. rewrite handleAbort_run.
    destruct (CMap.getOpt (component msg) (components st)) as [comp|] eqn:Hget;
      [|apply evolves_refl].
    destruct (sameAgent (assignee comp) (agent msg)) eqn:Hs; simpl;
      [|apply evolves_refl].
    rewrite Hparse in Hs. apply sameAgent_Some in Hs.
    apply evolves_updateOpt with (c := comp); [exact Hget|].
    now apply t_abort with (a := fromAgent).
Qed.

(** Each operation moves every component by one transition (possibly the
    idle one) and keeps keys and order. *)
Lemma step_evolves (cfg : CoordinatorConfig) (op : Op) (st : BuildState) :
  evolves cfg (components st) (components (exec (step cfg op) st)).
Proof.
  destruct op as [content fromAgent now | now | ]; simpl.
  - apply handleMessage_evolves.
  - unfold exec, checkTimeouts.
    pose proof (sweepEntries_evolves cfg now (components st)) as H.
    destruct (sweepEntries cfg now (components st)) as [m out]. exact H.
  - apply evolves_refl.
Qed.

Lemma evolves_values (cfg : CoordinatorConfig) (P : Component -> Prop)
      (m m' : CMap.t) :
  (forall c c', P c -> transition cfg c c' -> P c') ->
  evolves cfg m m' ->
  Forall P (CMap.values m) -> Forall P (CMap.values m').
Proof.
  intros Hstep Hev. induction Hev as [|[k c] [k' c'] m m' [_ Ht] _ IH]; simpl.
  - constructor.
  - intro H. inversion H; subst. constructor; eauto.
Qed.

Lemma set_values (P : Component -> Prop) (k : string) (v : Component)
      (m : CMap.t) :
  P v -> Forall P (CMap.values m) -> Forall P (CMap.values (CMap.set k v m)).
Proof.
  intro Hv. induction m as [|[k' c] m IH]; simpl.
  - constructor; auto.
  - intro H. inversion H; subst.
    destruct (String.eqb k k'); simpl; constructor; auto.
Qed.

Lemma newCoordinator_values (P : Component -> Prop) (url : string)
      (comps : list ComponentDef) (t0 : Z) :
  (forall def, P (initialComponent def)) ->
  Forall P (CMap.values (components (newCoordinator url comps t0))).
Proof.
  intro Hinit. unfold newCoordinator.
  assert (H : forall st, Forall P (CMap.values (components st)) ->
    Forall P (CMap.values (components
      (fold_left
         (fun st comp =>
            with_components
              (CMap.set (JsString.toLowerCase (def_name comp))
                        (initialComponent comp) (components st)) st)
         comps st)))).
  { induction comps as [|comp comps IH]; intros st Hst; simpl; [exact Hst|].
    apply IH. simpl. apply set_values; auto. }
  apply H. constructor.
Qed.

(** A property of components that holds at construction and survives
    every transition holds in every reachable state. *)
Lemma reachable_invariant (cfg : CoordinatorConfig) (P : Component -> Prop) :
  (forall def, P (initialComponent def)) ->
  (forall c c', P c -> transition cfg c c' -> P c') ->
  forall st, reachable cfg st ->
  forall c, In c (CMap.values (components st)) -> P c.
Proof.
  intros Hinit Hstep st [url [comps [t0 [ops ->]]]].
  assert (H : forall ops st0, Forall P (CMap.values (components st0)) ->
              Forall P (CMap.values (components (exec (runOps cfg ops) st0)))).
  { clear ops. induction ops as [|op ops IH]; intros st0 H0; simpl.
    - exact H0.
    - rewrite exec_bind. apply IH.
      eapply evolves_values; [exact Hstep | apply step_evolves | exact H0]. }
  intros c Hc. eapply Forall_forall; [|exact Hc].
  apply H. now apply newCoordinator_values.
Qed.

Lemma evolves_get (cfg : CoordinatorConfig) (m m' : CMap.t) (k : string)
      (c : Component) :
  evolves cfg m m' -> CMap.get k m = Some c ->
  exists c', CMap.get k m' = Some c' /\ transition cfg c c'.
Proof.
  intro Hev. induction Hev as [|[k1 c1] [k2 c2] m m' [Hk Ht] _ IH]; simpl.
  - discriminate.
  - simpl in Hk. subst k2. destruct (String.eqb k k1).
    + intro H. inversion H; subst. eauto.
    + exact IH.
Qed.

Lemma reachable_after (url : string) (comps : list ComponentDef) (t0 : Z)
      (cfg : CoordinatorConfig) (ops : list Op) :
  reachable cfg (exec (runOps cfg ops) (newCoordinator url comps t0)).
Proof. exists url, comps, t0, ops. reflexivity. Qed.

(** ** Status and assignee *)

(** C2, counterexample: after CLAIM by agent1 and AUDIT PASS the component
    is merged and still carries its assignee. *)
Lemma assignee_iff_active_counterexample :
  ~ (forall cfg st, reachable cfg st ->
     forall c, In c (CMap.values (components st)) -> assigneeIffActive c).
Proof.
  intro H.
  pose proof (H DEFAULT_CONFIG _
                (reachable_after "spec" [mkDef "A" []] 0 DEFAULT_CONFIG
                                 Scenario.claimThenPass)
                (mkComponent "A" merged (Some "agent1") [] None (Some 1000)
                             None 0)) as Hc.
  assert (Hin : In merged [claimed; building; ready; auditing]).
  { apply Hc; [vm_compute; left; reflexivity | discriminate]. }
  simpl in Hin. repeat (destruct Hin as [Hin|Hin]; [discriminate|]).
  exact Hin.
Qed.

(** C2, amended. In every reachable state a pending component has no
    assignee, a claimed or ready component has one, and a component with an
    assignee is claimed, building, ready or merged. *)
Theorem assignee_status_invariant (cfg : CoordinatorConfig) (st : BuildState) :
  reachable cfg st ->
  forall c, In c (CMap.values (components st)) ->
    (status c = pending -> assignee c = None)
    /\ (status c = claimed \/ status c = ready -> assignee c <> None)
    /\ (assignee c <> None -> In (status c) [claimed; building; ready; merged]).
Proof.
  intros Hreach c Hc.
  assert (Hinv : (status c = pending -> assignee c = None)
                 /\ (status c = claimed \/ status c = ready ->
                     assignee c <> None)
                 /\ status c <> failed /\ status c <> auditing).
  { revert st Hreach c Hc. apply reachable_invariant.
    - intro def. simpl. repeat split; try discriminate.
      intros [H|H]; discriminate.
    - intros c c' [Hp [Ha [Hf Hau]]] Ht.
      inversion Ht; subst; simpl; auto;
        repeat split; try discriminate; try congruence;
        try (intros [H'|H']; discriminate). }
  destruct Hinv as [Hp [Ha [Hf Hau]]].
  split; [exact Hp|]. split; [exact Ha|].
  intro Hset. destruct (status c) eqn:Hs; simpl; auto.
  - exfalso. apply Hset. now apply Hp.
  - exfalso. now apply Hau.
  - exfalso. now apply Hf.
Qed.

Lemma assignee_status_invariant_witness :
  let st := Scenario.after Scenario.claimThenPass Scenario.single in
  let c := mkComponent "A" merged (Some "agent1") [] None (Some 1000) None 0 in
  reachable DEFAULT_CONFIG st
  /\ In c (CMap.values (components st))
  /\ (assignee c <> None -> In (status c) [claimed; building; ready; merged]).
Proof.
  cbv zeta.
  assert (Hr : reachable DEFAULT_CONFIG
                 (Scenario.after Scenario.claimThenPass Scenario.single)).
  { apply reachable_after. }
  assert (Hin : In (mkComponent "A" merged (Some "agent1") [] None
                                (Some 1000) None 0)
                   (CMap.values (components
                      (Scenario.after Scenario.claimThenPass
                                      Scenario.single)))).
  { vm_compute. left. reflexivity. }
  split; [exact Hr|]. split; [exact Hin|].
  exact (proj2 (proj2 (assignee_status_invariant _ _ Hr _ Hin))).
Defined.

(** ** The declared statuses that are never assigned *)

Lemma handleAudit_component (cfg : CoordinatorConfig) (msg : ParsedMessage)
      (st : BuildState) (comp : Component) :
  CMap.getOpt (component msg) (components st) = Some comp ->
  CMap.getOpt (component msg) (components (exec (handleAudit cfg msg) st))
  = Some (if isPASS (value msg) then set_status merged comp
          else if maxRetries cfg <=? retryCount comp + 1 then
            set_assignee None
              (set_status pending (set_retryCount (retryCount comp + 1) comp))
          else
            set_status building (set_retryCount (retryCount comp + 1) comp)).
Proof.
  intro Hget. rewrite handleAudit_state, Hget.
  destruct (getOpt_Some_key _ _ _ Hget) as [k [Hk Hgk]].
  rewrite Hk. simpl. rewrite CMapFacts.get_update_same, Hgk. simpl.
  destruct (isPASS (value msg)); [reflexivity|].
  destruct (maxRetries cfg <=? retryCount comp + 1); reflexivity.
Qed.

(** What a CLAIM that passes all three guards leaves behind. *)
Lemma handleClaim_success (now : Z) (msg : ParsedMessage) (st : BuildState)
      (comp : Component) :
  CMap.getOpt (component msg) (components st) = Some comp ->
  status comp = pending ->
  DependenciesSatisfied st comp ->
  CMap.getOpt (component msg) (components (exec (handleClaim now msg) st))
  = Some (mkComponent (name comp) claimed (agent msg) (dependencies comp)
            (prUrl comp) (Some now) (lastProgress comp) (retryCount comp))
  /\ sent (handleClaim now msg) st
     = [formatMessage ACK [component msg; agent msg]].
Proof.
  intros Hget Hp Hdeps. unfold exec, sent. rewrite handleClaim_run, Hget.
  apply status_eqb_eq in Hp. rewrite Hp. simpl.
  apply dependenciesMet_spec in Hdeps. rewrite Hdeps. simpl.
  split; [|reflexivity].
  destruct (getOpt_Some_key _ _ _ Hget) as [k [Hk Hgk]].
  rewrite Hk. simpl. rewrite CMapFacts.get_update_same, Hgk. reflexivity.
Qed.

(** C9. No reachable state holds a component whose status is failed or
    auditing.  An AUDIT FAIL that exhausts the retries puts the component
    back to pending without assignee, with its retry count kept.  A pending
    component whose dependencies are merged is claimed again whatever its
    retry count: the CLAIM makes it claimed by the sender at the current
    time, keeps the count, and is answered by one ACK.  In particular the
    CLAIM that follows a retry exhaustion succeeds in this way, each time
    it is made. *)
Theorem never_failed_never_auditing (cfg : CoordinatorConfig) :
  (forall st, reachable cfg st ->
     forall c, In c (CMap.values (components st)) ->
       status c <> failed /\ status c <> auditing)
  /\ (forall st msg comp,
        CMap.getOpt (component msg) (components st) = Some comp ->
        isPASS (value msg) = false ->
        maxRetries cfg <= retryCount comp + 1 ->
        exists c',
          CMap.getOpt (component msg)
                      (components (exec (handleAudit cfg msg) st)) = Some c'
          /\ status c' = pending
          /\ assignee c' = None
          /\ retryCount c' = retryCount comp + 1)
  /\ (forall st now msg comp,
        CMap.getOpt (component msg) (components st) = Some comp ->
        status comp = pending ->
        DependenciesSatisfied st comp ->
        CMap.getOpt (component msg)
                    (components (exec (handleClaim now msg) st))
        = Some (mkComponent (name comp) claimed (agent msg)
                  (dependencies comp) (prUrl comp) (Some now)
                  (lastProgress comp) (retryCount comp))
        /\ sent (handleClaim now msg) st
           = [formatMessage ACK [component msg; agent msg]])
  /\ (forall st now fail claim comp,
        component claim = component fail ->
        CMap.getOpt (component fail) (components st) = Some comp ->
        isPASS (value fail) = false ->
        maxRetries cfg <= retryCount comp + 1 ->
        let st1 := exec (handleAudit cfg fail) st in
        let released :=
          mkComponent (name comp) pending None (dependencies comp)
                      (prUrl comp) (claimedAt comp) (lastProgress comp)
                      (retryCount comp + 1) in
        DependenciesSatisfied st1 released ->
        CMap.getOpt (component claim)
                    (components (exec (handleClaim now claim) st1))
        = Some (mkComponent (name comp) claimed (agent claim)
                  (dependencies comp) (prUrl comp) (Some now)
                  (lastProgress comp) (retryCount comp + 1))
        /\ sent (handleClaim now claim) st1
           = [formatMessage ACK [component claim; agent claim]]).
Proof.
  assert (Hexhaust : forall st msg comp,
            CMap.getOpt (component msg) (components st) = Some comp ->
            isPASS (value msg) = false ->
            maxRetries cfg <= retryCount comp + 1 ->
            CMap.getOpt (component msg)
                        (components (exec (handleAudit cfg msg) st))
            = Some (mkComponent (name comp) pending None (dependencies comp)
                      (prUrl comp) (claimedAt comp) (lastProgress comp)
                      (retryCount comp + 1))).
  { intros st msg comp Hget Hfail Hmax.
    rewrite (handleAudit_component cfg msg st comp Hget), Hfail.
    apply Z.leb_le in Hmax. rewrite Hmax. reflexivity. }
  split; [|split; [|split]].
  - apply (reachable_invariant cfg
             (fun c => status c <> failed /\ status c <> auditing)).
    + intro def. simpl. split; discriminate.
    + intros c c' [Hf Ha] Ht.
      inversion Ht; subst; simpl; auto; split; discriminate.
  - intros st msg comp Hget Hfail Hmax.
    rewrite (Hexhaust st msg comp Hget Hfail Hmax).
    eexists. repeat split; reflexivity.
  - intros st now msg comp Hget Hp Hdeps. now apply handleClaim_success.
  - intros st now fail claim comp Hsame Hget Hfail Hmax. cbv zeta.
    intro Hdeps.
    pose proof (Hexhaust st fail comp Hget Hfail Hmax) as H1.
    rewrite <- Hsame in H1.
    exact (handleClaim_success now claim _ _ H1 eq_refl Hdeps).
Qed.

Lemma never_failed_never_auditing_witness :
  let st := Scenario.after Scenario.threeFails Scenario.single in
  let st2 := Scenario.after Scenario.twoFails Scenario.single in
  let c := mkComponent "A" pending None [] None None None 3 in
  (reachable DEFAULT_CONFIG st
   /\ In c (CMap.values (components st))
   /\ status c <> failed /\ status c <> auditing)
  /\ (exists c',
        CMap.getOpt (Some "a")
          (components (exec (handleAudit DEFAULT_CONFIG Scenario.auditFail)
                            st2))
        = Some c'
        /\ status c' = pending /\ assignee c' = None /\ retryCount c' = 3)
  /\ (CMap.getOpt (Some "a")
        (components (exec (handleClaim 4000 Scenario.claimByAgent1) st))
      = Some (mkComponent "A" claimed (Some "agent1") [] None (Some 4000)
                          None 3)
      /\ sent (handleClaim 4000 Scenario.claimByAgent1) st = ["ACK a agent1"])
  /\ (CMap.getOpt (Some "a")
        (components
           (exec (handleClaim 4000 Scenario.claimByAgent1)
                 (exec (handleAudit DEFAULT_CONFIG Scenario.auditFail) st2)))
      = Some (mkComponent "A" claimed (Some "agent1") [] None (Some 4000)
                          None 3)
      /\ sent (handleClaim 4000 Scenario.claimByAgent1)
              (exec (handleAudit DEFAULT_CONFIG Scenario.auditFail) st2)
         = ["ACK a agent1"]).
Proof.
  cbv zeta.
  assert (Hr : reachable DEFAULT_CONFIG
                 (Scenario.after Scenario.threeFails Scenario.single)).
  { apply reachable_after. }
  assert (Hin : In (mkComponent "A" pending None [] None None None 3)
                   (CMap.values (components
                      (Scenario.after Scenario.threeFails Scenario.single)))).
  { vm_compute. left. reflexivity. }
  split; [|split; [|split]].
  - split; [exact Hr|]. split; [exact Hin|].
    exact (proj1 (never_failed_never_auditing DEFAULT_CONFIG) _ Hr _ Hin).
  - apply (proj1 (proj2 (never_failed_never_auditing DEFAULT_CONFIG))
                 (Scenario.after Scenario.twoFails Scenario.single)
                 Scenario.auditFail
                 (mkComponent "A" building None [] None None None 2)).
    + vm_compute. reflexivity.
    + reflexivity.
    + simpl. lia.
  - apply (proj1 (proj2 (proj2 (never_failed_never_auditing DEFAULT_CONFIG)))
                 (Scenario.after Scenario.threeFails Scenario.single)
                 4000 Scenario.claimByAgent1
                 (mkComponent "A" pending None [] None None None 3)).
    + vm_compute. reflexivity.
    + reflexivity.
    + intros d Hd. destruct Hd.
  - apply (proj2 (proj2 (proj2 (never_failed_never_auditing DEFAULT_CONFIG)))
                 (Scenario.after Scenario.twoFails Scenario.single)
                 4000 Scenario.auditFail Scenario.claimByAgent1
                 (mkComponent "A" building None [] None None None 2)).
    + reflexivity.
    + vm_compute. reflexivity.
    + reflexivity.
    + simpl. lia.
    + intros d Hd. destruct Hd.
Defined.

(** ** The retry counter *)

Lemma transition_retryCount (cfg : CoordinatorConfig) (c c' : Component) :
  transition cfg c c' ->
  retryCount c' = retryCount c \/ retryCount c' = retryCount c + 1.
Proof. intro Ht. inversion Ht; subst; simpl; auto. Qed.

Lemma get_update_any (k k' : string) f (m : CMap.t) :
  CMap.get k (CMap.update k' f m)
  = if String.eqb k' k then option_map f (CMap.get k m) else CMap.get k m.
Proof.
  destruct (String.eqb_spec k' k) as [->|Hne].
  - apply CMapFacts.get_update_same.
  - now apply CMapFacts.get_update_other.
Qed.

Lemma get_updateOpt (k : string) (key : option string) f (m : CMap.t)
      (c : Component) :
  CMap.get k m = Some c ->
  CMap.get k (CMap.updateOpt key f m) = Some c
  \/ (key = Some k /\ CMap.get k (CMap.updateOpt key f m) = Some (f c)).
Proof.
  intro Hget. destruct key as [k'|]; simpl; [|now left].
  rewrite get_update_any.
  destruct (String.eqb_spec k' k) as [->|Hne].
  - right. rewrite Hget. auto.
  - now left.
Qed.

(** C3, counterexample: three AUDIT FAIL bring the component back to
    pending with retry count 3; the CLAIM that follows succeeds and the
    count is still 3. *)
Lemma claim_resets_retryCount_counterexample :
  ~ (forall cfg st, reachable cfg st ->
     forall now msg comp,
       CMap.getOpt (component msg) (components st) = Some comp ->
       status comp = pending ->
       DependenciesSatisfied st comp ->
       exists c',
         CMap.getOpt (component msg)
                     (components (exec (handleClaim now msg) st)) = Some c'
         /\ retryCount c' = 0).
Proof.
  intro H.
  destruct (H DEFAULT_CONFIG _
              (reachable_after "spec" [mkDef "A" []] 0 DEFAULT_CONFIG
                               Scenario.threeFails)
              4000 Scenario.claimByAgent1
              (mkComponent "A" pending None [] None None None 3))
    as [c' [Hget Hrc]].
  - vm_compute. reflexivity.
  - reflexivity.
  - intros d Hd. destruct Hd.
  - vm_compute in Hget. inversion Hget; subst c'. discriminate Hrc.
Qed.

(** C3, amended. [handleClaim] leaves the retry count of every component
    as it is, and every operation leaves it unchanged or adds one: the
    count is never reset. *)
Theorem retryCount_never_reset (cfg : CoordinatorConfig) (st : BuildState)
        (k : string) (c : Component) :
  CMap.get k (components st) = Some c ->
  (forall now msg,
     exists c',
       CMap.get k (components (exec (handleClaim now msg) st)) = Some c'
       /\ retryCount c' = retryCount c)
  /\ (forall op,
        exists c',
          CMap.get k (components (exec (step cfg op) st)) = Some c'
          /\ (retryCount c' = retryCount c
              \/ retryCount c' = retryCount c + 1)).
Proof.
  intro Hget. split.
  - intros now msg. unfold exec. rewrite handleClaim_run.
    destruct (CMap.getOpt (component msg) (components st)) as [comp|];
      [|simpl; eauto].
    destruct (negb (status_eqb (status comp) pending)); [simpl; eauto|].
    destruct (negb (dependenciesMet st comp)); [simpl; eauto|].
    simpl.
    destruct (get_updateOpt k (component msg)
                (fun c0 => set_claimedAt (Some now)
                             (set_assignee (agent msg)
                                (set_status claimed c0)))
                (components st) c Hget) as [H|[_ H]];
      rewrite H; eexists; split; reflexivity.
  - intro op.
    destruct (evolves_get cfg _ _ k c (step_evolves cfg op st) Hget)
      as [c' [Hget' Ht]].
    exists c'. split; [exact Hget'|]. now apply transition_retryCount with cfg.
Qed.

Lemma retryCount_never_reset_witness :
  let st := Scenario.after Scenario.threeFails Scenario.single in
  let c := mkComponent "A" pending None [] None None None 3 in
  CMap.get "a" (components st) = Some c
  /\ exists c',
       CMap.get "a" (components
                       (exec (handleClaim 4000 Scenario.claimByAgent1) st))
       = Some c'
       /\ retryCount c' = 3.
Proof.
  cbv zeta.
  assert (Hget : CMap.get "a" (components
                   (Scenario.after Scenario.threeFails Scenario.single))
                 = Some (mkComponent "A" pending None [] None None None 3)).
  { vm_compute. reflexivity. }
  split; [exact Hget|].
  exact (proj1 (retryCount_never_reset DEFAULT_CONFIG _ _ _ Hget)
               4000 Scenario.claimByAgent1).
Defined.

(** ** Release paths *)

Lemma sweepEntries_get (cfg : CoordinatorConfig) (now : Z) (m : CMap.t)
      (k : string) :
  CMap.get k (fst (sweepEntries cfg now m))
  = option_map (fun c => fst (sweepComponent cfg now c)) (CMap.get k m).
Proof.
  induction m as [|[k' c] m IH]; simpl; [reflexivity|].
  destruct (sweepComponent cfg now c) as [c1 out1] eqn:E.
  destruct (sweepEntries cfg now m) as [m1 outs1]. simpl in *.
  destruct (String.eqb k k'); [simpl; now rewrite E | exact IH].
Qed.

Lemma checkTimeouts_get (cfg : CoordinatorConfig) (now : Z) (st : BuildState)
      (k : string) :
  CMap.get k (components (exec (checkTimeouts cfg now) st))
  = option_map (fun c => fst (sweepComponent cfg now c))
               (CMap.get k (components st)).
Proof.
  unfold exec, checkTimeouts.
  pose proof (sweepEntries_get cfg now (components st) k) as H.
  destruct (sweepEntries cfg now (components st)) as [m out]. exact H.
Qed.

(** C5, counterexample: an ABORT by the assignee after a PROGRESS report
    releases the component and leaves its progress time stamp in place. *)
Lemma release_clears_both_counterexample :
  ~ (forall cfg st, reachable cfg st ->
     forall msg comp,
       CMap.getOpt (component msg) (components st) = Some comp ->
       sameAgent (assignee comp) (agent msg) = true ->
       exists c',
         CMap.getOpt (component msg)
                     (components (exec (handleAbort msg) st)) = Some c'
         /\ status c' = pending
         /\ claimedAt c' = None /\ lastProgress c' = None).
Proof.
  intro H.
  destruct (H DEFAULT_CONFIG _
              (reachable_after "spec" [mkDef "A" []] 0 DEFAULT_CONFIG
                               Scenario.claimProgress)
              Scenario.abortByAgent1
              (mkComponent "A" building (Some "agent1") [] None (Some 1000)
                           (Some 2000) 0))
    as [c' [Hget [_ [_ Hlp]]]].
  - vm_compute. reflexivity.
  - reflexivity.
  - vm_compute in Hget. inversion Hget; subst c'. discriminate Hlp.
Qed.

(** C5, amended. Every release path returns the component to pending and
    clears the assignee.  ABORT by the assignee and the claim-expiry
    timeout clear [claimedAt] and keep [lastProgress]; the progress timeout
    clears [lastProgress] and keeps [claimedAt]; retry exhaustion on AUDIT
    FAIL keeps both time stamps. *)
Theorem release_paths (cfg : CoordinatorConfig) (st : BuildState)
        (k : string) (comp : Component) :
  CMap.get k (components st) = Some comp ->
  (forall msg,
     component msg = Some k ->
     sameAgent (assignee comp) (agent msg) = true ->
     CMap.get k (components (exec (handleAbort msg) st))
     = Some (mkComponent (name comp) pending None (dependencies comp)
               (prUrl comp) None (lastProgress comp) (retryCount comp)))
  /\ (forall now t,
        status comp = claimed -> claimedAt comp = Some t -> t <> 0 ->
        claimExpiryMs cfg < now - t ->
        CMap.get k (components (exec (checkTimeouts cfg now) st))
        = Some (mkComponent (name comp) pending None (dependencies comp)
                  (prUrl comp) None (lastProgress comp) (retryCount comp)))
  /\ (forall now t,
        status comp = building -> lastProgress comp = Some t -> t <> 0 ->
        progressTimeoutMs cfg < now - t ->
        CMap.get k (components (exec (checkTimeouts cfg now) st))
        = Some (mkComponent (name comp) pending None (dependencies comp)
                  (prUrl comp) (claimedAt comp) None (retryCount comp)))
  /\ (forall msg,
        component msg = Some k ->
        isPASS (value msg) = false ->
        maxRetries cfg <= retryCount comp + 1 ->
        CMap.get k (components (exec (handleAudit cfg msg) st))
        = Some (mkComponent (name comp) pending None (dependencies comp)
                  (prUrl comp) (claimedAt comp) (lastProgress comp)
                  (retryCount comp + 1))).
Proof.
  intro Hget. split; [|split; [|split]].
  - intros msg Hk Hs. unfold exec. rewrite handleAbort_run, Hk. simpl.
    rewrite Hget, Hs. simpl.
    rewrite CMapFacts.get_update_same, Hget. reflexivity.
  - intros now t Hst Hca Ht Hexp.
    rewrite checkTimeouts_get, Hget. simpl. f_equal.
    unfold sweepComponent, checkClaimExpiry. rewrite Hst, Hca. simpl.
    assert (Hc : negb (t =? 0) && (claimExpiryMs cfg <? now - t) = true).
    { apply andb_true_iff. split.
      - apply negb_true_iff. now apply Z.eqb_neq.
      - now apply Z.ltb_lt. }
    rewrite Hc. reflexivity.
  - intros now t Hst Hlp Ht Hexp.
    rewrite checkTimeouts_get, Hget. simpl. f_equal.
    unfold sweepComponent, checkClaimExpiry, checkProgressTimeout.
    rewrite Hst. simpl. rewrite Hst, Hlp. simpl.
    assert (Hc : negb (t =? 0) && (progressTimeoutMs cfg <? now - t) = true).
    { apply andb_true_iff. split.
      - apply negb_true_iff. now apply Z.eqb_neq.
      - now apply Z.ltb_lt. }
    rewrite Hc. reflexivity.
  - intros msg Hk Hfail Hmax.
    assert (Hg : CMap.getOpt (component msg) (components st) = Some comp).
    { rewrite Hk. exact Hget. }
    pose proof (handleAudit_component cfg msg st comp Hg) as H.
    rewrite Hk in H. simpl in H. rewrite H, Hfail.
    apply Z.leb_le in Hmax. rewrite Hmax. reflexivity.
Qed.

Lemma release_paths_witness :
  CMap.get "a" (components
     (exec (handleAbort Scenario.abortByAgent1)
           (Scenario.after Scenario.claimProgress Scenario.single)))
  = Some (mkComponent "A" pending None [] None None (Some 2000) 0)
  /\ CMap.get "a" (components
        (exec (checkTimeouts DEFAULT_CONFIG 200000)
              (Scenario.after Scenario.reclaimed Scenario.single)))
     = Some (mkComponent "A" pending None [] None None (Some 2000) 0)
  /\ CMap.get "a" (components
        (exec (checkTimeouts DEFAULT_CONFIG 700000)
              (Scenario.after Scenario.claimProgress Scenario.single)))
     = Some (mkComponent "A" pending None [] None (Some 1000) None 0)
  /\ CMap.get "a" (components
        (exec (handleAudit DEFAULT_CONFIG Scenario.auditFail)
              (Scenario.after Scenario.twoFails Scenario.single)))
     = Some (mkComponent "A" pending None [] None None None 3).
Proof.
  assert (H1 : CMap.get "a" (components
                 (Scenario.after Scenario.claimProgress Scenario.single))
               = Some (mkComponent "A" building (Some "agent1") [] None
                                   (Some 1000) (Some 2000) 0)).
  { vm_compute. reflexivity. }
  assert (H2 : CMap.get "a" (components
                 (Scenario.after Scenario.reclaimed Scenario.single))
               = Some (mkComponent "A" claimed (Some "agent2") [] None
                                   (Some 4000) (Some 2000) 0)).
  { vm_compute. reflexivity. }
  assert (H3 : CMap.get "a" (components
                 (Scenario.after Scenario.twoFails Scenario.single))
               = Some (mkComponent "A" building None [] None None None 2)).
  { vm_compute. reflexivity. }
  split; [|split; [|split]].
  - apply (proj1 (release_paths DEFAULT_CONFIG _ _ _ H1)
                 Scenario.abortByAgent1); reflexivity.
  - apply (proj1 (proj2 (release_paths DEFAULT_CONFIG _ _ _ H2))
                 200000 4000); [reflexivity | reflexivity | lia |].
    simpl. lia.
  - apply (proj1 (proj2 (proj2 (release_paths DEFAULT_CONFIG _ _ _ H1)))
                 700000 2000); [reflexivity | reflexivity | lia |].
    simpl. lia.
  - apply (proj2 (proj2 (proj2 (release_paths DEFAULT_CONFIG _ _ _ H3)))
                 Scenario.auditFail); [reflexivity | reflexivity |].
    simpl. lia.
Defined.

(** ** AUDIT without guards *)





(** ** The PASS token and the bold markers *)

(** C4. The pattern accepts the verdict in any letter case and hands it on
    as written, and [handleAudit] compares it with the upper-case PASS
    only: "AUDIT a pass" on a fresh component counts as an audit failure
    (retry count 1, status building, nothing sent), where "AUDIT a PASS"
    merges the component and sends MERGED. *)
Theorem audit_pass_lower_case_counts_as_fail :
  parseMessage "AUDIT a pass" "reviewer"
  = Some (mkParsed AUDIT (Some "a") (Some "reviewer") (Some "pass"))
  /\ CMap.get "a" (components
        (exec (handleMessage DEFAULT_CONFIG 1000 "AUDIT a pass" "reviewer")
              Scenario.single))
     = Some (mkComponent "A" building None [] None None None 1)
  /\ sent (handleMessage DEFAULT_CONFIG 1000 "AUDIT a pass" "reviewer")
          Scenario.single = []
  /\ CMap.get "a" (components
        (exec (handleMessage DEFAULT_CONFIG 1000 "AUDIT a PASS" "reviewer")
              Scenario.single))
     = Some (mkComponent "A" merged None [] None None None 0)
  /\ sent (handleMessage DEFAULT_CONFIG 1000 "AUDIT a PASS" "reviewer")
          Scenario.single
     = ["MERGED a";
        "TASKS spec" ++ newline ++ "Available components: ";
        "BUILD COMPLETE spec"].
Proof. vm_compute. repeat split; reflexivity. Qed.

(** C8. A closing bold marker is taken into the last capture when that
    capture is a run of non-blank characters or the rest of the line:
    "**CLAIM auth**" yields the component "auth**", not "auth", and
    likewise for READY, BLOCKED and ABORT.  A marker that closes right
    after the keyword matches no pattern.  PROGRESS and AUDIT lines
    wrapped as a whole parse like the plain line. *)
Theorem bold_markers_reach_the_captures :
  parseMessage "CLAIM auth" "agent1"
  = Some (mkParsed CLAIM (Some "auth") (Some "agent1") None)
  /\ parseMessage "**CLAIM auth**" "agent1"
     = Some (mkParsed CLAIM (Some "auth**") (Some "agent1") None)
  /\ parseMessage "**CLAIM** auth" "agent1" = None
  /\ parseMessage "**READY auth http://pr/1**" "agent1"
     = Some (mkParsed READY (Some "auth") (Some "agent1")
                      (Some "http://pr/1**"))
  /\ parseMessage "**BLOCKED auth db**" "agent1"
     = Some (mkParsed BLOCKED (Some "auth") (Some "agent1") (Some "db**"))
  /\ parseMessage "**ABORT auth**" "agent1"
     = Some (mkParsed ABORT (Some "auth**") (Some "agent1") None)
  /\ parseMessage "**PROGRESS auth 50%**" "agent1"
     = parseMessage "PROGRESS auth 50%" "agent1"
  /\ parseMessage "**AUDIT auth PASS**" "agent1"
     = parseMessage "AUDIT auth PASS" "agent1"
  /\ sent (handleMessage DEFAULT_CONFIG 1000 "**CLAIM a**" "agent1")
          Scenario.single
     = ["REJECT a** " ++ dquote ++ "component not found" ++ dquote].
Proof. vm_compute. repeat split; reflexivity. Qed.

(** ** Concrete instances *)

Lemma handleClaim_outcome_witness :
  sent (handleClaim 1000 (mkParsed CLAIM (Some "zzz") (Some "agent1") None))
       Scenario.single
  = ["REJECT zzz " ++ dquote ++ "component not found" ++ dquote]
  /\ sent (handleClaim 2000 (mkParsed CLAIM (Some "a") (Some "agent2") None))
          (Scenario.after [Message "CLAIM a" "agent1" 1000] Scenario.single)
     = ["REJECT a " ++ dquote ++ "already claimed by agent1" ++ dquote]
  /\ sent (handleClaim 1000 (mkParsed CLAIM (Some "b") (Some "agent1") None))
          Scenario.dangling
     = ["REJECT b " ++ dquote ++ "dependencies not met: a, ghost" ++ dquote]
  /\ (CMap.get "a" (components
         (exec (handleClaim 1000 Scenario.claimByAgent1) Scenario.single))
      = Some (mkComponent "A" claimed (Some "agent1") [] None (Some 1000)
                          None 0)
      /\ sent (handleClaim 1000 Scenario.claimByAgent1) Scenario.single
         = ["ACK a agent1"]).
Proof.
  split; [|split; [|split]].
  - exact (proj2 (proj1 (handleClaim_outcome 1000
             (mkParsed CLAIM (Some "zzz") (Some "agent1") None)
             Scenario.single) eq_refl)).
  - apply (proj1 (proj2 (handleClaim_outcome 2000
             (mkParsed CLAIM (Some "a") (Some "agent2") None)
             (Scenario.after [Message "CLAIM a" "agent1" 1000]
                             Scenario.single)))
             (mkComponent "A" claimed (Some "agent1") [] None (Some 1000)
                          None 0)).
    + vm_compute. reflexivity.
    + discriminate.
  - apply (proj1 (proj2 (proj2 (handleClaim_outcome 1000
             (mkParsed CLAIM (Some "b") (Some "agent1") None)
             Scenario.dangling)))
             (mkComponent "B" pending None ["a"; "ghost"] None None None 0)).
    + vm_compute. reflexivity.
    + reflexivity.
    + intro Hsat. destruct (Hsat "ghost") as [dep [Hdep _]].
      * simpl. auto.
      * vm_compute in Hdep. discriminate Hdep.
  - pose proof (proj1 (proj2 (proj2 (proj2 (handleClaim_outcome 1000
             Scenario.claimByAgent1 Scenario.single))))
             (mkComponent "A" pending None [] None None None 0)) as H.
    destruct H as [Hget [_ Hout]].
    + vm_compute. reflexivity.
    + reflexivity.
    + intros d Hd. destruct Hd.
    + split; [exact Hget | exact Hout].
Defined.

Lemma getAvailableComponents_claimable_witness :
  let b := mkComponent "B" pending None ["a"; "ghost"] None None None 0 in
  In "ghost" (dependencies b)
  /\ CMap.get "ghost" (components Scenario.dangling) = None
  /\ ~ In b (getAvailableComponents Scenario.dangling)
  /\ getAvailableComponents Scenario.dangling
     = [mkComponent "A" pending None [] None None None 0].
Proof.
  cbv zeta.
  assert (Hd : In "ghost" (dependencies
                 (mkComponent "B" pending None ["a"; "ghost"] None None
                              None 0))).
  { simpl. auto. }
  assert (Hg : CMap.get "ghost" (components Scenario.dangling) = None).
  { vm_compute. reflexivity. }
  split; [exact Hd|]. split; [exact Hg|]. split.
  - exact (proj2 (proj2 (getAvailableComponents_claimable Scenario.dangling))
                 _ _ Hd Hg).
  - rewrite (proj1 (getAvailableComponents_claimable Scenario.dangling)).
    vm_compute. reflexivity.
Defined.


(** ** The codec: white space, letter case and bold markers *)

Lemma lowerChar_idempotent (c : ascii) :
  JsString.lowerChar (JsString.lowerChar c) = JsString.lowerChar c.
Proof.
  destruct c as [b0 b1 b2 b3 b4 b5 b6 b7].
  destruct b0, b1, b2, b3, b4, b5, b6, b7; vm_compute; reflexivity.
Qed.

Lemma toLowerCase_idempotent (s : string) :
  JsString.toLowerCase (JsString.toLowerCase s) = JsString.toLowerCase s.
Proof.
  induction s as [|c s IH]; simpl; [reflexivity|].
  now rewrite lowerChar_idempotent, IH.
Qed.

Lemma trimEnd_keeps (c : ascii) (s : string) :
  JsString.isSpace c = false ->
  JsString.trimEnd (String c s) = String c (JsString.trimEnd s).
Proof.
  intro Hc. simpl. destruct (JsString.trimEnd s); [now rewrite Hc | reflexivity].
Qed.

Lemma trimStart_skips (pre s : string) :
  allSpace pre = true ->
  JsString.trimStart (pre ++ s) = JsString.trimStart s.
Proof.
  induction pre as [|c pre IH]; simpl; [reflexivity|].
  intro H. apply andb_true_iff in H. destruct H as [Hc Hpre].
  rewrite Hc. auto.
Qed.

Lemma trimStart_allSpace (p : string) :
  allSpace p = true -> JsString.trimStart p = "".
Proof.
  induction p as [|c p IH]; simpl; [reflexivity|].
  intro H. apply andb_true_iff in H. destruct H as [Hc Hp].
  rewrite Hc. auto.
Qed.

Lemma trimEnd_allSpace (p : string) :
  allSpace p = true -> JsString.trimEnd p = "".
Proof.
  induction p as [|c p IH]; simpl; [reflexivity|].
  intro H. apply andb_true_iff in H. destruct H as [Hc Hp].
  rewrite (IH Hp), Hc. reflexivity.
Qed.

Lemma trimEnd_drops (s post : string) :
  allSpace post = true ->
  JsString.trimEnd (s ++ post) = JsString.trimEnd s.
Proof.
  intro Hp. induction s as [|c s IH]; simpl.
  - now apply trimEnd_allSpace.
  - now rewrite IH.
Qed.

Lemma trim_surrounded (pre s post : string) :
  allSpace pre = true -> allSpace post = true ->
  JsString.trim (pre ++ s ++ post) = JsString.trim s.
Proof.
  intros Hpre Hpost. unfold JsString.trim.
  rewrite trimStart_skips by exact Hpre.
  induction s as [|c s IH]; simpl.
  - rewrite trimStart_allSpace by exact Hpost. reflexivity.
  - destruct (JsString.isSpace c) eqn:Hc; [exact IH|].
    change (String c (s ++ post)) with (String c s ++ post).
    now apply trimEnd_drops.
Qed.

(** X1. White space around a line does not matter to the parser. *)
Theorem parseMessage_ignores_surrounding_space
        (pre content post fromAgent : string) :
  allSpace pre = true -> allSpace post = true ->
  parseMessage (pre ++ content ++ post) fromAgent
  = parseMessage content fromAgent.
Proof.
  intros Hpre Hpost. unfold parseMessage.
  now rewrite trim_surrounded.
Qed.

Lemma parseMessage_ignores_surrounding_space_witness :
  parseMessage ("  " ++ "CLAIM Auth" ++ " " ++ newline) "agent1"
  = parseMessage "CLAIM Auth" "agent1".
Proof.
  apply (parseMessage_ignores_surrounding_space
           "  " "CLAIM Auth" (" " ++ newline) "agent1"); reflexivity.
Defined.

Lemma star_continues {R : Type} (cls : ascii -> bool) (s : string)
      (k : string -> option R) (res : R) :
  RegExp.star cls s k = Some res -> exists rest, k rest = Some res.
Proof.
  induction s as [|c s IH]; simpl.
  - eauto.
  - destruct (cls c); [|eauto].
    destruct (RegExp.star cls s k) as [r|] eqn:E; [|eauto].
    intro H. inversion H; subst. now apply IH.
Qed.

(** A successful match ends in its continuation, with every capture it
    started from still set. *)
Lemma run_continues {R : Type} (r : RegExp.t) :
  forall (s : string) (caps : RegExp.Captures)
         (k : string -> RegExp.Captures -> option R) (res : R),
    RegExp.run r s caps k = Some res ->
    exists rest caps',
      k rest caps' = Some res
      /\ (forall i, caps i <> None -> caps' i <> None).
Proof.
  induction r as [l | cls | r IH | r1 IH1 r2 IH2 | r1 IH1 r2 IH2 | n r IH];
    intros s caps k res; simpl.
  - destruct (RegExp.lit l s); [|discriminate]. eauto.
  - destruct s as [|c s]; [discriminate|].
    destruct (cls c); [|discriminate].
    intro H. apply star_continues in H. destruct H as [rest H]. eauto.
  - destruct (RegExp.run r s caps k) as [x|] eqn:E.
    + intro H. inversion H; subst. now apply IH with (s := s).
    + eauto.
  - intro H. apply IH1 in H. destruct H as [s1 [c1 [H Hm1]]].
    apply IH2 in H. destruct H as [s2 [c2 [H Hm2]]].
    exists s2, c2. split; auto.
  - destruct (RegExp.run r1 s caps k) as [x|] eqn:E.
    + intro H. inversion H; subst. now apply IH1 with (s := s).
    + apply IH2.
  - intro H. apply IH in H. destruct H as [rest [c' [H Hm]]].
    exists rest, (RegExp.capture n (RegExp.consumed s rest) c').
    split; [exact H|].
    intros i Hi. unfold RegExp.capture.
    destruct (Nat.eqb i n); [discriminate | auto].
Qed.

Lemma run_binds {R : Type} (n : nat) (r : RegExp.t) :
  binds n r = true ->
  forall (s : string) (caps : RegExp.Captures)
         (k : string -> RegExp.Captures -> option R) (res : R),
    RegExp.run r s caps k = Some res ->
    exists rest caps', k rest caps' = Some res /\ caps' n <> None.
Proof.
  induction r as [l | cls | r IH | r1 IH1 r2 IH2 | r1 IH1 r2 IH2 | m r IH];
    simpl; try discriminate.
  - intros Hb s caps k res H. apply orb_true_iff in Hb.
    destruct Hb as [Hb|Hb].
    + destruct (IH1 Hb _ _ _ _ H) as [s1 [c1 [H1 Hn]]].
      destruct (run_continues _ _ _ _ _ H1) as [s2 [c2 [H2 Hm]]].
      exists s2, c2. auto.
    + destruct (run_continues _ _ _ _ _ H) as [s1 [c1 [H1 _]]].
      now apply IH2 in H1.
  - intros Hb s caps k res H.
    destruct (run_continues _ _ _ _ _ H) as [rest [c' [H1 _]]].
    destruct (Nat.eqb m n) eqn:E.
    + exists rest, (RegExp.capture m (RegExp.consumed s rest) c').
      split; [exact H1|]. unfold RegExp.capture.
      apply Nat.eqb_eq in E. subst m. rewrite Nat.eqb_refl. discriminate.
    + simpl in Hb. destruct (IH Hb _ _ _ _ H) as [rest' [c'' [H2 Hn]]].
      exists rest', (RegExp.capture m (RegExp.consumed s rest') c'').
      split; [exact H2|]. unfold RegExp.capture.
      rewrite Nat.eqb_sym, E. exact Hn.
Qed.

Lemma exec_binds (n : nat) (r : RegExp.t) (s : string)
      (m : RegExp.Captures) :
  binds n r = true -> RegExp.exec r s = Some m -> m n <> None.
Proof.
  intros Hb H. unfold RegExp.exec in H.
  destruct (run_binds n r Hb _ _ _ _ H) as [rest [caps' [Hk Hn]]].
  inversion Hk; subst. exact Hn.
Qed.

Lemma firstMatch_shape (pats : list (MessageType * RegExp.t))
      (trimmed fromAgent : string) (m : ParsedMessage) :
  Forall (fun p => In (fst p) inboundTypes /\ binds 1 (snd p) = true) pats ->
  firstMatch pats trimmed fromAgent = Some m ->
  In (type m) inboundTypes
  /\ exists c, component m = Some c /\ JsString.toLowerCase c = c.
Proof.
  induction pats as [|[ty pattern] pats IH]; simpl; [discriminate|].
  intro Hall. inversion Hall as [|p ps [Hty Hb] Hrest]; subst.
  destruct (RegExp.exec pattern trimmed) as [caps|] eqn:E; [|now apply IH].
  intro H. inversion H; subst; clear H. simpl in *.
  split; [exact Hty|].
  pose proof (exec_binds 1 pattern trimmed caps Hb E) as Hn.
  destruct (caps 1%nat) as [c|]; [|contradiction].
  exists (JsString.toLowerCase c). split; [reflexivity|].
  apply toLowerCase_idempotent.
Qed.

(** X2. Every event the parser returns has one of the six inbound types,
    the sender the caller passed in, and a component name that is present
    and already in lower case. *)
Theorem parseMessage_event_shape (content fromAgent : string)
        (m : ParsedMessage) :
  parseMessage content fromAgent = Some m ->
  In (type m) inboundTypes
  /\ agent m = Some fromAgent
  /\ exists c, component m = Some c /\ JsString.toLowerCase c = c.
Proof.
  intro H.
  assert (Hs : In (type m) inboundTypes
               /\ exists c, component m = Some c
                            /\ JsString.toLowerCase c = c).
  { apply firstMatch_shape
      with (pats := MESSAGE_PATTERNS) (trimmed := JsString.trim content)
           (fromAgent := fromAgent); [|exact H].
    unfold MESSAGE_PATTERNS, inboundTypes.
    repeat (apply Forall_cons;
            [split; [simpl; auto 10 | reflexivity]|]).
    apply Forall_nil. }
  destruct Hs as [Hty Hc]. split; [exact Hty|]. split; [|exact Hc].
  now apply parseMessage_agent with (content := content).
Qed.

Lemma parseMessage_event_shape_witness :
  parseMessage "ready AUTH http://pr/1" "agent1"
  = Some (mkParsed READY (Some "auth") (Some "agent1") (Some "http://pr/1"))
  /\ In READY inboundTypes
  /\ exists c, Some "auth" = Some c /\ JsString.toLowerCase c = c.
Proof.
  assert (H : parseMessage "ready AUTH http://pr/1" "agent1"
              = Some (mkParsed READY (Some "auth") (Some "agent1")
                               (Some "http://pr/1"))).
  { vm_compute. reflexivity. }
  split; [exact H|].
  destruct (parseMessage_event_shape _ _ _ H) as [Hty [_ Hc]].
  split; [exact Hty | exact Hc].
Defined.


Lemma canonicalize_star (c : ascii) :
  Ascii.eqb c "*" = false ->
  Ascii.eqb (JsString.canonicalize "*") (JsString.canonicalize c) = false.
Proof.
  destruct c as [b0 b1 b2 b3 b4 b5 b6 b7].
  destruct b0, b1, b2, b3, b4, b5, b6, b7; vm_compute; auto.
Qed.

(** On a text that opens with the marker, a pattern continues right after
    it; on a text that does not, the optional group matches empty. *)
Lemma bold_prefix_skipped (key : string) (r : RegExp.t) (u : string) :
  RegExp.lit key ("**" ++ u) = None ->
  RegExp.lit "**" u = None ->
  RegExp.exec (RegExp.Seq Patterns.bold (RegExp.Seq (RegExp.Lit key) r))
              ("**" ++ u)
  = RegExp.exec (RegExp.Seq Patterns.bold (RegExp.Seq (RegExp.Lit key) r)) u.
Proof.
  intros Hkey Hbold. unfold RegExp.exec, Patterns.bold.
  cbn [RegExp.run].
  assert (Hopen : RegExp.lit "**" ("**" ++ u) = Some u) by reflexivity.
  rewrite Hopen, Hkey, Hbold.
  destruct (RegExp.lit key u) as [rest|]; [|reflexivity].
  match goal with |- match ?x with _ => _ end = _ => destruct x end;
    reflexivity.
Qed.

(** X3. A bold marker in front of the keyword is skipped: the line parses
    as it does without the marker. *)
Theorem parseMessage_skips_leading_bold (t fromAgent : string) :
  startsPlain t = true ->
  parseMessage ("**" ++ t) fromAgent = parseMessage t fromAgent.
Proof.
  intro Hp. destruct t as [|c t]; [reflexivity|].
  simpl in Hp. apply andb_true_iff in Hp. destruct Hp as [Hsp Hst].
  apply negb_true_iff in Hsp. apply negb_true_iff in Hst.
  unfold parseMessage, JsString.trim.
  assert (Ht1 : JsString.trimStart ("**" ++ String c t) = "**" ++ String c t)
    by reflexivity.
  assert (Ht2 : JsString.trimStart (String c t) = String c t).
  { simpl. now rewrite Hsp. }
  rewrite Ht1, Ht2.
  change ("**" ++ String c t) with (String "*" (String "*" (String c t))).
  rewrite !trimEnd_keeps by (exact Hsp || reflexivity).
  set (u := String c (JsString.trimEnd t)).
  change (String "*" (String "*" u)) with ("**" ++ u).
  assert (Hbold : RegExp.lit "**" u = None).
  { unfold u. cbn [RegExp.lit]. now rewrite canonicalize_star. }
  unfold MESSAGE_PATTERNS. cbn [firstMatch].
  unfold Patterns.claim, Patterns.progress, Patterns.ready, Patterns.blocked,
    Patterns.abort, Patterns.audit.
  rewrite !bold_prefix_skipped by (exact Hbold || reflexivity).
  reflexivity.
Qed.

Lemma parseMessage_skips_leading_bold_witness :
  startsPlain "AUDIT auth FAIL flaky test" = true
  /\ parseMessage ("**" ++ "AUDIT auth FAIL flaky test") "reviewer"
     = parseMessage "AUDIT auth FAIL flaky test" "reviewer".
Proof.
  split; [reflexivity|].
  apply parseMessage_skips_leading_bold. reflexivity.
Defined.

(** ** What the coordinator sends *)

Lemma sent_bind {A B : Type} (m : Eff A) (k : Eff B) (st : BuildState) :
  sent (m ;; k) st = (sent m st ++ sent k (exec m st))%list.
Proof.
  unfold sent, exec, bind. destruct (m st) as [[a st1] out1]. simpl.
  destruct (k st1) as [[b st2] out2]. reflexivity.
Qed.

(** The messages of [handleAudit], in the order they are sent. *)
Lemma handleAudit_sent (cfg : CoordinatorConfig) (msg : ParsedMessage)
      (st : BuildState) :
  sent (handleAudit cfg msg) st =
  match CMap.getOpt (component msg) (components st) with
  | None => []
  | Some comp =>
      if isPASS (value msg) then
        let st' := exec (handleAudit cfg msg) st in
        formatMessage MERGED [component msg]
        :: sent broadcastTasks st'
           ++ (if isComplete st'
               then [("BUILD COMPLETE " ++ specUrl st')%string]
               else [])
      else if maxRetries cfg <=? retryCount comp + 1 then
        [formatMessage RETRY [component msg]]
      else []
  end%list.
Proof.
  rewrite handleAudit_state.
  unfold handleAudit, sent, bind, lookup, mutate, sendMessage, broadcastTasks,
    getState, ret, bind. simpl.
  destruct (CMap.getOpt (component msg) (components st)) as [comp|];
    [|reflexivity].
  destruct (isPASS (value msg)); simpl.
  - match goal with |- context [isComplete ?s] => destruct (isComplete s) end;
      reflexivity.
  - destruct (maxRetries cfg <=? retryCount comp + 1); reflexivity.
Qed.

Lemma head_not_parsed (a b c : ascii) (rest fromAgent : string) :
  JsString.isSpace a = false -> JsString.isSpace b = false ->
  JsString.isSpace c = false ->
  (forall r, firstMatch MESSAGE_PATTERNS (String a (String b (String c r)))
                        fromAgent = None) ->
  parseMessage (String a (String b (String c rest))) fromAgent = None.
Proof.
  intros Ha Hb Hc Hnone. unfold parseMessage, JsString.trim.
  assert (Hs : JsString.trimStart (String a (String b (String c rest)))
               = String a (String b (String c rest))).
  { simpl. now rewrite Ha. }
  rewrite Hs, !trimEnd_keeps by assumption. apply Hnone.
Qed.

(** No text the coordinator sends begins like a command. *)
Lemma outboundText_not_parsed (m fromAgent : string) :
  outboundText m -> parseMessage m fromAgent = None.
Proof.
  intros [[ty [args [Hty ->]]] | [url ->]].
  - unfold outboundTypes in Hty. simpl in Hty.
    destruct Hty as [<-|[<-|[<-|[<-|[<-|[<-|[]]]]]]]; simpl;
      apply head_not_parsed; try reflexivity; intro r; reflexivity.
  - simpl. apply head_not_parsed; try reflexivity; intro r; reflexivity.
Qed.

Lemma outbound_render (ty : MessageType) (args : list (option string)) :
  In ty outboundTypes -> outboundText (formatMessage ty args).
Proof. intro H. left. eauto. Qed.

#[local] Arguments formatMessage : simpl never.

Lemma sweepEntries_outbound (cfg : CoordinatorConfig) (now : Z) (m : CMap.t) :
  Forall outboundText (snd (sweepEntries cfg now m)).
Proof.
  induction m as [|[k c] m IH]; simpl; [constructor|].
  assert (Hc : Forall outboundText (snd (sweepComponent cfg now c))).
  { unfold sweepComponent, checkClaimExpiry, checkProgressTimeout.
    repeat match goal with
           | |- context [if ?b then _ else _] => destruct b
           | |- context [match ?o with Some _ => _ | None => _ end] =>
               destruct o
           end; cbn [snd fst app];
      repeat (apply Forall_cons; [apply outbound_render; simpl; auto 10|]);
      apply Forall_nil. }
  destruct (sweepComponent cfg now c) as [c1 out1].
  destruct (sweepEntries cfg now m) as [m1 outs1]. simpl in *.
  apply Forall_app. auto.
Qed.

Lemma step_sent_outbound (cfg : CoordinatorConfig) (op : Op)
      (st : BuildState) :
  Forall outboundText (sent (step cfg op) st).
Proof.
  assert (Htasks : forall s, Forall outboundText (sent broadcastTasks s)).
  { intro s. unfold sent, broadcastTasks, bind, getState, sendMessage. simpl.
    constructor; [|constructor]. apply outbound_render. simpl. auto. }
  destruct op as [content fromAgent now | now | ]; simpl.
  - unfold handleMessage.
    destruct (parseMessage content fromAgent) as [msg|]; [|constructor].
    destruct (type msg); try constructor.
    + unfold sent. rewrite handleClaim_run.
      destruct (CMap.getOpt (component msg) (components st)) as [comp|];
        simpl.
      * destruct (negb (status_eqb (status comp) pending)); simpl;
          [|destruct (negb (dependenciesMet st comp)); simpl];
          (constructor; [apply outbound_render; simpl; auto 10 | constructor]).
      * constructor; [apply outbound_render; simpl; auto 10 | constructor].
    + unfold sent. rewrite handleProgress_run.
      destruct (CMap.getOpt (component msg) (components st)) as [comp|];
        [destruct (sameAgent (assignee comp) (agent msg))|]; constructor.
    + unfold sent. rewrite handleReady_run.
      destruct (CMap.getOpt (component msg) (components st)) as [comp|];
        [destruct (sameAgent (assignee comp) (agent msg))|]; constructor.
    + rewrite handleAudit_sent.
      destruct (CMap.getOpt (component msg) (components st)) as [comp|];
        [|constructor].
      destruct (isPASS (value msg)).
      * cbv zeta. constructor; [apply outbound_render; simpl; auto 10|].
        apply Forall_app. split; [apply Htasks|].
        destruct (isComplete (exec (handleAudit cfg msg) st));
          [|constructor].
        constructor; [|constructor]. right. eauto.
      * destruct (maxRetries cfg <=? retryCount comp + 1); [|constructor].
        constructor; [apply outbound_render; simpl; auto 10 | constructor].
    + unfold sent at 1. rewrite handleAbort_run.
      destruct (CMap.getOpt (component msg) (components st)) as [comp|];
        [|constructor].
      destruct (sameAgent (assignee comp) (agent msg)); [|constructor].
      cbv zeta. cbn [snd]. apply Htasks.
  - unfold sent, checkTimeouts.
    pose proof (sweepEntries_outbound cfg now (components st)) as H.
    destruct (sweepEntries cfg now (components st)) as [m out]. exact H.
  - apply Htasks.
Qed.

(** X4. Nothing the coordinator sends, over any history, is read back as
    a command: every outbound line parses to no event. *)
Theorem outbound_never_parsed (cfg : CoordinatorConfig) (ops : list Op)
        (st : BuildState) (m fromAgent : string) :
  In m (sent (runOps cfg ops) st) -> parseMessage m fromAgent = None.
Proof.
  revert st. induction ops as [|op ops IH]; intros st; simpl.
  - intros [].
  - rewrite sent_bind. intro H. apply in_app_or in H.
    destruct H as [H|H].
    + apply outboundText_not_parsed.
      eapply Forall_forall; [apply step_sent_outbound | exact H].
    + now apply IH with (st := exec (step cfg op) st).
Qed.

Lemma outbound_never_parsed_witness :
  In "ACK a agent1"
     (sent (runOps DEFAULT_CONFIG Scenario.claimThenPass) Scenario.single)
  /\ parseMessage "ACK a agent1" "agent1" = None.
Proof.
  assert (H : In "ACK a agent1"
                 (sent (runOps DEFAULT_CONFIG Scenario.claimThenPass)
                       Scenario.single)).
  { vm_compute. left. reflexivity. }
  split; [exact H|].
  exact (outbound_never_parsed DEFAULT_CONFIG Scenario.claimThenPass
                               Scenario.single _ "agent1" H).
Defined.

(** ** PROGRESS, READY, BLOCKED and ABORT *)

Lemma sameAgent_true_iff (a b : option string) :
  sameAgent a b = true <-> a = b.
Proof.
  destruct a as [x|], b as [y|]; simpl; split; intro H;
    try reflexivity; try discriminate.
  - apply String.eqb_eq in H. now subst.
  - inversion H. apply String.eqb_refl.
Qed.

Lemma sameAgent_false_iff (a b : option string) :
  sameAgent a b = false <-> a <> b.
Proof.
  rewrite <- sameAgent_true_iff. destruct (sameAgent a b); split; intro H;
    try reflexivity; try discriminate; try (exfalso; now apply H).
Qed.

(** X5. A line that is not parsed changes nothing, and only CLAIM, ABORT
    and AUDIT are ever answered: PROGRESS, READY, BLOCKED and unparsed
    lines send nothing in any state. *)
Theorem silent_lines (cfg : CoordinatorConfig) (now : Z)
        (content fromAgent : string) (st : BuildState) :
  (parseMessage content fromAgent = None ->
     exec (handleMessage cfg now content fromAgent) st = st)
  /\ ((forall m, parseMessage content fromAgent = Some m ->
                 In (type m) [PROGRESS; READY; BLOCKED]) ->
      sent (handleMessage cfg now content fromAgent) st = []).
Proof.
  unfold handleMessage. split.
  - intros ->. reflexivity.
  - intro H. destruct (parseMessage content fromAgent) as [msg|];
      [|reflexivity].
    specialize (H msg eq_refl). simpl in H.
    destruct H as [H|[H|[H|[]]]]; rewrite <- H; unfold sent.
    + rewrite handleProgress_run.
      destruct (CMap.getOpt (component msg) (components st)) as [comp|];
        [destruct (sameAgent (assignee comp) (agent msg))|]; reflexivity.
    + rewrite handleReady_run.
      destruct (CMap.getOpt (component msg) (components st)) as [comp|];
        [destruct (sameAgent (assignee comp) (agent msg))|]; reflexivity.
    + reflexivity.
Qed.

Lemma silent_lines_witness :
  (parseMessage "hello there" "agent1" = None
   /\ exec (handleMessage DEFAULT_CONFIG 1000 "hello there" "agent1")
           Scenario.single = Scenario.single)
  /\ sent (handleMessage DEFAULT_CONFIG 2000 "PROGRESS a 10%" "agent1")
          (Scenario.after [Message "CLAIM a" "agent1" 1000] Scenario.single)
     = [].
Proof.
  split.
  - assert (H : parseMessage "hello there" "agent1" = None)
      by (vm_compute; reflexivity).
    split; [exact H|].
    exact (proj1 (silent_lines DEFAULT_CONFIG 1000 "hello there" "agent1"
                               Scenario.single) H).
  - apply (proj2 (silent_lines DEFAULT_CONFIG 2000 "PROGRESS a 10%" "agent1"
                               _)).
    intros m Hm. vm_compute in Hm. inversion Hm; subst. simpl. auto.
Defined.

(** X6. PROGRESS and READY look at the stored assignee only.  Sent by
    the assignee they are applied in every status, a merged component
    included: PROGRESS sets building and the progress time, READY sets
    ready and the artifact reference (none, if the line has none).  For
    any other sender, or an unknown component, the state stays as it is. *)
Theorem progress_ready_effect (now : Z) (msg : ParsedMessage)
        (st : BuildState) :
  (forall k comp,
     component msg = Some k ->
     CMap.get k (components st) = Some comp ->
     assignee comp = agent msg ->
     CMap.get k (components (exec (handleProgress now msg) st))
     = Some (mkComponent (name comp) building (assignee comp)
               (dependencies comp) (prUrl comp) (claimedAt comp)
               (Some now) (retryCount comp))
     /\ CMap.get k (components (exec (handleReady msg) st))
        = Some (mkComponent (name comp) ready (assignee comp)
                  (dependencies comp) (value msg) (claimedAt comp)
                  (lastProgress comp) (retryCount comp)))
  /\ (forall comp,
        CMap.getOpt (component msg) (components st) = Some comp ->
        assignee comp <> agent msg ->
        exec (handleProgress now msg) st = st
        /\ exec (handleReady msg) st = st)
  /\ (CMap.getOpt (component msg) (components st) = None ->
      exec (handleProgress now msg) st = st
      /\ exec (handleReady msg) st = st).
Proof.
  unfold exec. rewrite handleProgress_run, handleReady_run.
  split; [|split].
  - intros k comp Hk Hget Hsame. rewrite Hk. simpl. rewrite Hget.
    apply sameAgent_true_iff in Hsame. rewrite Hsame. simpl.
    rewrite !CMapFacts.get_update_same, Hget. split; reflexivity.
  - intros comp Hget Hne. rewrite Hget.
    apply sameAgent_false_iff in Hne. rewrite Hne. split; reflexivity.
  - intros ->. split; reflexivity.
Qed.

Lemma progress_ready_effect_witness :
  let st := Scenario.after Scenario.claimThenPass Scenario.single in
  let msg := mkParsed PROGRESS (Some "a") (Some "agent1") (Some "99") in
  CMap.get "a" (components st)
  = Some (mkComponent "A" merged (Some "agent1") [] None (Some 1000) None 0)
  /\ CMap.get "a" (components (exec (handleProgress 5000 msg) st))
     = Some (mkComponent "A" building (Some "agent1") [] None (Some 1000)
                         (Some 5000) 0)
  /\ exec (handleProgress 5000
             (mkParsed PROGRESS (Some "a") (Some "agent2") (Some "99"))) st
     = st
  /\ exec (handleReady (mkParsed READY (Some "zzz") (Some "agent1") None)) st
     = st.
Proof.
  cbv zeta.
  assert (Hget : CMap.get "a" (components
                   (Scenario.after Scenario.claimThenPass Scenario.single))
                 = Some (mkComponent "A" merged (Some "agent1") [] None
                                     (Some 1000) None 0)).
  { vm_compute. reflexivity. }
  split; [exact Hget|]. split; [|split].
  - exact (proj1 (proj1 (progress_ready_effect 5000
             (mkParsed PROGRESS (Some "a") (Some "agent1") (Some "99")) _)
             "a" _ eq_refl Hget eq_refl)).
  - apply (proj1 (proj2 (progress_ready_effect 5000
             (mkParsed PROGRESS (Some "a") (Some "agent2") (Some "99")) _))
             _ Hget).
    discriminate.
  - apply (proj2 (proj2 (progress_ready_effect 5000
             (mkParsed READY (Some "zzz") (Some "agent1") None) _))).
    vm_compute. reflexivity.
Defined.

Lemma getAvailableComponents_filter (st : BuildState) :
  getAvailableComponents st
  = filter (fun c => status_eqb (status c) pending && dependenciesMet st c)
           (CMap.values (components st)).
Proof. unfold getAvailableComponents. now rewrite push_loop_filter. Qed.

Lemma In_getAvailableComponents (st : BuildState) (c : Component) :
  In c (getAvailableComponents st) <->
  In c (CMap.values (components st))
  /\ status c = pending /\ DependenciesSatisfied st c.
Proof.
  rewrite getAvailableComponents_filter, filter_In, andb_true_iff,
    status_eqb_eq, dependenciesMet_spec.
  tauto.
Qed.

Lemma update_self (k : string) f (m : CMap.t) (c : Component) :
  CMap.get k m = Some c -> f c = c -> CMap.update k f m = m.
Proof.
  induction m as [|[k' c'] m IH]; simpl; [reflexivity|].
  destruct (String.eqb k k').
  - intros H Hf. inversion H; subst. now rewrite Hf.
  - intros H Hf. now rewrite IH.
Qed.

Lemma with_components_self (st : BuildState) :
  with_components (components st) st = st.
Proof. destruct st; reflexivity. Qed.

(** X7. An ABORT for an unknown component, or from anyone but the stored
    assignee, changes nothing and sends nothing.  An ABORT from the
    assignee sends exactly one TASKS message, computed on the state after
    the release, and the released component is on that list exactly when
    its dependencies are merged. *)
Theorem handleAbort_outcome (msg : ParsedMessage) (st : BuildState) :
  (CMap.getOpt (component msg) (components st) = None ->
     exec (handleAbort msg) st = st /\ sent (handleAbort msg) st = [])
  /\ (forall comp,
        CMap.getOpt (component msg) (components st) = Some comp ->
        assignee comp <> agent msg ->
        exec (handleAbort msg) st = st /\ sent (handleAbort msg) st = [])
  /\ (forall comp,
        CMap.getOpt (component msg) (components st) = Some comp ->
        assignee comp = agent msg ->
        let st' := exec (handleAbort msg) st in
        let released :=
          mkComponent (name comp) pending None (dependencies comp)
                      (prUrl comp) None (lastProgress comp)
                      (retryCount comp) in
        sent (handleAbort msg) st
        = [formatMessage TASKS
             (Some (specUrl st)
              :: map (fun c => Some (name c)) (getAvailableComponents st'))]
        /\ (In released (getAvailableComponents st')
            <-> DependenciesSatisfied st' released)).
Proof.
  unfold exec, sent. rewrite handleAbort_run.
  split; [|split].
  - intros ->. split; reflexivity.
  - intros comp Hget Hne. rewrite Hget.
    apply sameAgent_false_iff in Hne. rewrite Hne. split; reflexivity.
  - intros comp Hget Hsame. rewrite Hget.
    apply sameAgent_true_iff in Hsame. rewrite Hsame. cbv zeta.
    cbn [fst snd]. split; [reflexivity|].
    rewrite In_getAvailableComponents.
    destruct (getOpt_Some_key _ _ _ Hget) as [k [Hk Hgk]].
    split; [tauto|]. intro Hdeps.
    split; [|split; [reflexivity | exact Hdeps]].
    apply CMapFacts.get_In with (k := k). rewrite Hk. simpl.
    rewrite CMapFacts.get_update_same, Hgk. reflexivity.
Qed.

Lemma handleAbort_outcome_witness :
  let st := Scenario.after Scenario.claimProgress Scenario.single in
  (exec (handleAbort (mkParsed ABORT (Some "zzz") (Some "agent1") None)) st
   = st)
  /\ (exec (handleAbort (mkParsed ABORT (Some "a") (Some "agent2") None)) st
      = st)
  /\ sent (handleAbort Scenario.abortByAgent1) st
     = ["TASKS spec" ++ newline ++ "Available components: A"].
Proof.
  cbv zeta. split; [|split].
  - apply (proj1 (handleAbort_outcome
             (mkParsed ABORT (Some "zzz") (Some "agent1") None) _)).
    vm_compute. reflexivity.
  - apply (proj1 (proj2 (handleAbort_outcome
             (mkParsed ABORT (Some "a") (Some "agent2") None) _))
             (mkComponent "A" building (Some "agent1") [] None (Some 1000)
                          (Some 2000) 0)).
    + vm_compute. reflexivity.
    + discriminate.
  - pose proof (proj2 (proj2 (handleAbort_outcome Scenario.abortByAgent1
             (Scenario.after Scenario.claimProgress Scenario.single)))
             (mkComponent "A" building (Some "agent1") [] None (Some 1000)
                          (Some 2000) 0)) as H.
    cbv zeta in H. destruct H as [Hsent _].
    + vm_compute. reflexivity.
    + reflexivity.
    + rewrite Hsent. vm_compute. reflexivity.
Defined.

(** X8. Claim and abort undo each other: when a pending component without
    assignee and without claim time is claimed and the same message's
    sender aborts, the registry is back in the state before the claim. *)
Theorem claim_then_abort_restores (now : Z) (claim abort : ParsedMessage)
        (st : BuildState) (k : string) (comp : Component) :
  component claim = Some k -> component abort = Some k ->
  agent abort = agent claim ->
  CMap.get k (components st) = Some comp ->
  status comp = pending -> assignee comp = None -> claimedAt comp = None ->
  DependenciesSatisfied st comp ->
  exec (handleAbort abort) (exec (handleClaim now claim) st) = st.
Proof.
  intros Hkc Hka Hag Hget Hst Has Hca Hdeps.
  assert (Hclaim : exec (handleClaim now claim) st
                   = with_components
                       (CMap.update k
                          (fun c => set_claimedAt (Some now)
                                      (set_assignee (agent claim)
                                         (set_status claimed c)))
                          (components st)) st).
  { unfold exec. rewrite handleClaim_run, Hkc. simpl. rewrite Hget.
    apply status_eqb_eq in Hst. rewrite Hst. simpl.
    apply dependenciesMet_spec in Hdeps. rewrite Hdeps. reflexivity. }
  rewrite Hclaim. unfold exec. rewrite handleAbort_run, Hka. simpl.
  rewrite CMapFacts.get_update_same, Hget. simpl. rewrite Hag.
  assert (Hs : sameAgent (agent claim) (agent claim) = true)
    by now apply sameAgent_true_iff.
  rewrite Hs. simpl. unfold with_components at 1. simpl.
  rewrite CMapFacts.update_update.
  rewrite update_self with (c := comp); [apply with_components_self | exact Hget |].
  destruct comp; simpl in *; subst; reflexivity.
Qed.

Lemma claim_then_abort_restores_witness :
  exec (handleAbort Scenario.abortByAgent1)
       (exec (handleClaim 1000 Scenario.claimByAgent1) Scenario.single)
  = Scenario.single.
Proof.
  apply (claim_then_abort_restores 1000 Scenario.claimByAgent1
           Scenario.abortByAgent1 Scenario.single "a"
           (mkComponent "A" pending None [] None None None 0));
    try reflexivity.
  intros d Hd. destruct Hd.
Defined.

(** X9. A component that names itself among its dependencies can never be
    claimed: it is on no list of claimable components, and every CLAIM for
    it is rejected and leaves the state as it is. *)
Theorem self_dependency_never_claimable (now : Z) (msg : ParsedMessage)
        (st : BuildState) (k : string) (comp : Component) :
  component msg = Some k ->
  CMap.get k (components st) = Some comp ->
  In k (dependencies comp) ->
  ~ In comp (getAvailableComponents st)
  /\ exec (handleClaim now msg) st = st
  /\ exists reason,
       sent (handleClaim now msg) st
       = [formatMessage REJECT [Some k; Some reason]].
Proof.
  intros Hk Hget Hself.
  assert (Hno : status comp = pending -> dependenciesMet st comp = false).
  { intro Hp. destruct (dependenciesMet st comp) eqn:E; [|reflexivity].
    apply dependenciesMet_spec in E.
    destruct (E k Hself) as [dep [Hd Hm]].
    rewrite Hget in Hd. inversion Hd; subst. congruence. }
  split; [|].
  - rewrite In_getAvailableComponents. intros [_ [Hp Hdeps]].
    apply dependenciesMet_spec in Hdeps. rewrite (Hno Hp) in Hdeps.
    discriminate.
  - unfold exec, sent. rewrite handleClaim_run, Hk. simpl. rewrite Hget.
    destruct (status_eqb (status comp) pending) eqn:Hs; simpl.
    + apply status_eqb_eq in Hs. rewrite (Hno Hs). simpl.
      split; [reflexivity | eauto].
    + split; [reflexivity | eauto].
Qed.


Lemma self_dependency_never_claimable_witness :
  let st := newCoordinator "spec" [mkDef "Loop" ["LOOP"]] 0 in
  let c := mkComponent "Loop" pending None ["loop"] None None None 0 in
  CMap.get "loop" (components st) = Some c
  /\ In "loop" (dependencies c)
  /\ ~ In c (getAvailableComponents st)
  /\ exec (handleClaim 1000 (mkParsed CLAIM (Some "loop") (Some "agent1")
                                      None)) st = st.
Proof.
  cbv zeta.
  assert (Hget : CMap.get "loop" (components
                   (newCoordinator "spec" [mkDef "Loop" ["LOOP"]] 0))
                 = Some (mkComponent "Loop" pending None ["loop"] None None
                                     None 0)).
  { vm_compute. reflexivity. }
  assert (Hin : In "loop" (dependencies
                  (mkComponent "Loop" pending None ["loop"] None None
                               None 0))).
  { simpl. auto. }
  split; [exact Hget|]. split; [exact Hin|].
  destruct (self_dependency_never_claimable 1000
              (mkParsed CLAIM (Some "loop") (Some "agent1") None)
              _ "loop" _ eq_refl Hget Hin) as [Hno [Hst _]].
  split; [exact Hno | exact Hst].
Defined.

(** ** The sweep, component by component *)

Lemma timedOutb_spec (cfg : CoordinatorConfig) (now : Z) (c : Component) :
  timedOutb cfg now c = true <-> timedOut cfg now c.
Proof.
  unfold timedOutb, timedOut. split.
  - destruct (status c) eqn:Hs; try discriminate.
    + destruct (claimedAt c) as [t|]; [|discriminate].
      intro H. apply andb_true_iff in H. destruct H as [H0 Hlt].
      left. split; [reflexivity|]. exists t. split; [reflexivity|].
      apply negb_true_iff, Z.eqb_neq in H0. apply Z.ltb_lt in Hlt. auto.
    + destruct (lastProgress c) as [t|]; [|discriminate].
      intro H. apply andb_true_iff in H. destruct H as [H0 Hlt].
      right. split; [reflexivity|]. exists t. split; [reflexivity|].
      apply negb_true_iff, Z.eqb_neq in H0. apply Z.ltb_lt in Hlt. auto.
  - intros [[Hs [t [Ht [H0 Hlt]]]] | [Hs [t [Ht [H0 Hlt]]]]];
      rewrite Hs, Ht; apply andb_true_iff; split;
      try (apply negb_true_iff, Z.eqb_neq; exact H0);
      apply Z.ltb_lt; exact Hlt.
Qed.

Lemma sweepComponent_cases (cfg : CoordinatorConfig) (now : Z)
      (c : Component) :
  sweepComponent cfg now c
  = if timedOutb cfg now c then
      (mkComponent (name c) pending None (dependencies c) (prUrl c)
         (match status c with claimed => None | _ => claimedAt c end)
         (match status c with claimed => lastProgress c | _ => None end)
         (retryCount c),
       [formatMessage TIMEOUT [Some (name c)]])
    else (c, []).
Proof.
  unfold sweepComponent, checkClaimExpiry, checkProgressTimeout, timedOutb.
  destruct c as [nm st asg deps pr ca lp rc]; simpl.
  destruct st; simpl; try reflexivity.
  - destruct ca as [t|]; simpl; [|reflexivity].
    destruct (negb (t =? 0) && (claimExpiryMs cfg <? now - t)); reflexivity.
  - destruct lp as [t|]; simpl; [|reflexivity].
    destruct (negb (t =? 0) && (progressTimeoutMs cfg <? now - t));
      reflexivity.
Qed.

Lemma sweepEntries_sent (cfg : CoordinatorConfig) (now : Z) (m : CMap.t) :
  snd (sweepEntries cfg now m)
  = map (fun c => formatMessage TIMEOUT [Some (name c)])
        (filter (timedOutb cfg now) (CMap.values m)).
Proof.
  induction m as [|[k c] m IH]; simpl; [reflexivity|].
  rewrite sweepComponent_cases.
  destruct (sweepEntries cfg now m) as [m1 outs1]. simpl in IH.
  destruct (timedOutb cfg now c); simpl; now rewrite IH.
Qed.

(** X10. The sweep sends one TIMEOUT per component whose claim has expired
    or whose progress has stalled, in registry order and under the name
    given at construction.  Such a component becomes pending without
    assignee; every other component is left as it is, in particular one
    whose time stamp is exactly the limit old, is unset or is 0. *)
Theorem checkTimeouts_outcome (cfg : CoordinatorConfig) (now : Z)
        (st : BuildState) :
  sent (checkTimeouts cfg now) st
  = map (fun c => formatMessage TIMEOUT [Some (name c)])
        (filter (timedOutb cfg now) (CMap.values (components st)))
  /\ (forall c, timedOutb cfg now c = true <-> timedOut cfg now c)
  /\ (forall k c,
        CMap.get k (components st) = Some c ->
        exists c',
          CMap.get k (components (exec (checkTimeouts cfg now) st)) = Some c'
          /\ (timedOut cfg now c ->
                status c' = pending /\ assignee c' = None)
          /\ (~ timedOut cfg now c -> c' = c)).
Proof.
  split; [|split].
  - unfold sent, checkTimeouts.
    pose proof (sweepEntries_sent cfg now (components st)) as H.
    destruct (sweepEntries cfg now (components st)) as [m out]. exact H.
  - intro c. apply timedOutb_spec.
  - intros k c Hget. rewrite checkTimeouts_get, Hget. simpl.
    eexists. split; [reflexivity|].
    rewrite sweepComponent_cases. rewrite <- timedOutb_spec.
    destruct (timedOutb cfg now c); simpl; split; intro H;
      try reflexivity; try discriminate; try (split; reflexivity).
    exfalso. now apply H.
Qed.

Lemma checkTimeouts_outcome_witness :
  let st := Scenario.after [Message "CLAIM a" "agent1" 1000] Scenario.single in
  let c := mkComponent "A" claimed (Some "agent1") [] None (Some 1000) None 0 in
  CMap.get "a" (components st) = Some c
  /\ CMap.get "a" (components (exec (checkTimeouts DEFAULT_CONFIG 121000) st))
     = Some c
  /\ sent (checkTimeouts DEFAULT_CONFIG 121001) st = ["TIMEOUT A"].
Proof.
  cbv zeta.
  assert (Hget : CMap.get "a" (components
                   (Scenario.after [Message "CLAIM a" "agent1" 1000]
                                   Scenario.single))
                 = Some (mkComponent "A" claimed (Some "agent1") [] None
                                     (Some 1000) None 0)).
  { vm_compute. reflexivity. }
  split; [exact Hget|]. split.
  - destruct (proj2 (proj2 (checkTimeouts_outcome DEFAULT_CONFIG 121000 _))
                    "a" _ Hget) as [c' [Hc' [_ Hsame]]].
    rewrite Hc'. f_equal. apply Hsame.
    intros [[_ [t [Ht [_ Hlt]]]] | [Hs _]].
    + inversion Ht; subst t. simpl in Hlt. lia.
    + discriminate Hs.
  - rewrite (proj1 (checkTimeouts_outcome DEFAULT_CONFIG 121001 _)).
    vm_compute. reflexivity.
Defined.

(** ** AUDIT: retries in a row and the messages of a verdict *)

(** X11. After [n >= 1] AUDIT FAIL reports in a row on a component with
    retry count [r], the count is [r + n]; the component is pending
    without assignee when [r + n] has reached [maxRetries], and building
    with its assignee unchanged when it has not. *)
Theorem audit_fail_repeated (cfg : CoordinatorConfig) (msg : ParsedMessage)
        (k : string) (n : nat) :
  component msg = Some k -> isPASS (value msg) = false ->
  forall (st : BuildState) (comp : Component),
    CMap.get k (components st) = Some comp ->
    CMap.get k (components (exec (repeatEff (S n) (handleAudit cfg msg)) st))
    = Some (if maxRetries cfg <=? retryCount comp + Z.of_nat (S n) then
              mkComponent (name comp) pending None (dependencies comp)
                (prUrl comp) (claimedAt comp) (lastProgress comp)
                (retryCount comp + Z.of_nat (S n))
            else
              mkComponent (name comp) building (assignee comp)
                (dependencies comp) (prUrl comp) (claimedAt comp)
                (lastProgress comp) (retryCount comp + Z.of_nat (S n))).
Proof.
  intros Hk Hfail.
  assert (Hone : forall st comp,
            CMap.get k (components st) = Some comp ->
            CMap.get k (components (exec (handleAudit cfg msg) st))
            = Some (if maxRetries cfg <=? retryCount comp + 1 then
                      mkComponent (name comp) pending None (dependencies comp)
                        (prUrl comp) (claimedAt comp) (lastProgress comp)
                        (retryCount comp + 1)
                    else
                      mkComponent (name comp) building (assignee comp)
                        (dependencies comp) (prUrl comp) (claimedAt comp)
                        (lastProgress comp) (retryCount comp + 1))).
  { intros st comp Hget.
    assert (Hg : CMap.getOpt (component msg) (components st) = Some comp).
    { rewrite Hk. exact Hget. }
    pose proof (handleAudit_component cfg msg st comp Hg) as H.
    rewrite Hk in H. simpl in H. rewrite H, Hfail.
    destruct (maxRetries cfg <=? retryCount comp + 1); reflexivity. }
  induction n as [|n IH]; intros st comp Hget.
  - cbn [repeatEff]. rewrite exec_bind.
    change (exec (ret tt) ?s) with s. apply Hone. exact Hget.
  - cbn [repeatEff]. rewrite exec_bind.
    change (handleAudit cfg msg;; repeatEff n (handleAudit cfg msg))
      with (repeatEff (S n) (handleAudit cfg msg)).
    rewrite (IH _ _ (Hone st comp Hget)).
    assert (Hz : retryCount comp + Z.of_nat (S (S n))
                 = retryCount comp + 1 + Z.of_nat (S n)) by lia.
    rewrite Hz.
    destruct (maxRetries cfg <=? retryCount comp + 1) eqn:E1;
      cbn [retryCount name assignee dependencies prUrl claimedAt
           lastProgress status];
      destruct (maxRetries cfg <=? retryCount comp + 1 + Z.of_nat (S n))
        eqn:E2; try reflexivity.
    apply Z.leb_le in E1. apply Z.leb_gt in E2. lia.
Qed.

Lemma audit_fail_repeated_witness :
  CMap.get "a" (components
     (exec (repeatEff 2 (handleAudit DEFAULT_CONFIG Scenario.auditFail))
           (Scenario.after [Message "CLAIM a" "agent1" 1000] Scenario.single)))
  = Some (mkComponent "A" building (Some "agent1") [] None (Some 1000) None 2)
  /\ CMap.get "a" (components
        (exec (repeatEff 3 (handleAudit DEFAULT_CONFIG Scenario.auditFail))
              (Scenario.after [Message "CLAIM a" "agent1" 1000]
                              Scenario.single)))
     = Some (mkComponent "A" pending None [] None (Some 1000) None 3).
Proof.
  assert (Hget : CMap.get "a" (components
                   (Scenario.after [Message "CLAIM a" "agent1" 1000]
                                   Scenario.single))
                 = Some (mkComponent "A" claimed (Some "agent1") [] None
                                     (Some 1000) None 0)).
  { vm_compute. reflexivity. }
  split.
  - exact (audit_fail_repeated DEFAULT_CONFIG Scenario.auditFail "a" 1
             eq_refl eq_refl _ _ Hget).
  - exact (audit_fail_repeated DEFAULT_CONFIG Scenario.auditFail "a" 2
             eq_refl eq_refl _ _ Hget).
Defined.

Lemma isComplete_spec (st : BuildState) :
  isComplete st = true <->
  forall c, In c (CMap.values (components st)) -> status c = merged.
Proof.
  unfold isComplete. rewrite forallb_forall.
  split; intros H c Hc; apply status_eqb_eq; auto.
Qed.

Lemma complete_nothing_available (st : BuildState) :
  isComplete st = true -> getAvailableComponents st = [].
Proof.
  intro H. rewrite getAvailableComponents_filter.
  rewrite isComplete_spec in H.
  induction (CMap.values (components st)) as [|c cs IH]; simpl;
    [reflexivity|].
  rewrite (H c) by (simpl; auto). simpl. apply IH.
  intros c' Hc'. apply H. simpl. auto.
Qed.

(** X12. The messages of an AUDIT.  For an unknown component nothing is
    sent and nothing changes.  A PASS sends MERGED, then TASKS for the
    state after the merge; when that merge leaves every component merged
    the TASKS list is empty and the build-complete notice follows, and
    otherwise nothing follows.  A FAIL sends RETRY when the incremented
    retry count has reached [maxRetries] and nothing when it has not. *)
Theorem handleAudit_messages (cfg : CoordinatorConfig) (msg : ParsedMessage)
        (st : BuildState) :
  let st' := exec (handleAudit cfg msg) st in
  let out := sent (handleAudit cfg msg) st in
  (CMap.getOpt (component msg) (components st) = None ->
     st' = st /\ out = [])
  /\ (forall comp,
        CMap.getOpt (component msg) (components st) = Some comp ->
        isPASS (value msg) = true ->
        ((forall c, In c (CMap.values (components st')) ->
                    status c = merged) ->
         out = [formatMessage MERGED [component msg];
                formatMessage TASKS [Some (specUrl st)];
                "BUILD COMPLETE " ++ specUrl st])
        /\ (~ (forall c, In c (CMap.values (components st')) ->
                         status c = merged) ->
            out = [formatMessage MERGED [component msg];
                   formatMessage TASKS
                     (Some (specUrl st)
                      :: map (fun c => Some (name c))
                             (getAvailableComponents st'))]))
  /\ (forall comp,
        CMap.getOpt (component msg) (components st) = Some comp ->
        isPASS (value msg) = false ->
        (maxRetries cfg <= retryCount comp + 1 ->
         out = [formatMessage RETRY [component msg]])
        /\ (retryCount comp + 1 < maxRetries cfg -> out = [])).
Proof.
  cbv zeta. rewrite handleAudit_sent.
  split; [|split].
  - intro Hnone. rewrite handleAudit_state, Hnone. split; reflexivity.
  - intros comp Hget Hpass. rewrite Hget, Hpass. cbv zeta.
    assert (Hurl : specUrl (exec (handleAudit cfg msg) st) = specUrl st).
    { rewrite handleAudit_state, Hget. reflexivity. }
    unfold sent at 1 2, broadcastTasks, bind, getState, sendMessage.
    cbn [fst snd app]. rewrite Hurl. split.
    + intro Hall. apply isComplete_spec in Hall.
      rewrite Hall, (complete_nothing_available _ Hall). reflexivity.
    + intro Hnot.
      destruct (isComplete (exec (handleAudit cfg msg) st)) eqn:E;
        [|reflexivity].
      exfalso. apply Hnot. now apply isComplete_spec.
  - intros comp Hget Hfail. rewrite Hget, Hfail. split; intro H.
    + apply Z.leb_le in H. now rewrite H.
    + apply Z.leb_gt in H. now rewrite H.
Qed.

Lemma handleAudit_messages_witness :
  sent (handleAudit DEFAULT_CONFIG Scenario.auditPass) Scenario.single
  = ["MERGED a"; "TASKS spec" ++ newline ++ "Available components: ";
     "BUILD COMPLETE spec"]
  /\ sent (handleAudit DEFAULT_CONFIG Scenario.auditFail)
          (Scenario.after Scenario.twoFails Scenario.single)
     = ["RETRY a"]
  /\ sent (handleAudit DEFAULT_CONFIG
             (mkParsed AUDIT (Some "zzz") (Some "reviewer") (Some "PASS")))
          Scenario.single = [].
Proof.
  split; [|split].
  - pose proof (proj1 (proj2 (handleAudit_messages DEFAULT_CONFIG
                  Scenario.auditPass Scenario.single))
                  (mkComponent "A" pending None [] None None None 0)) as H.
    cbv zeta in H. destruct H as [Hall _].
    + vm_compute. reflexivity.
    + reflexivity.
    + apply Hall. intros c Hc. vm_compute in Hc.
      destruct Hc as [<-|[]]. reflexivity.
  - pose proof (proj2 (proj2 (handleAudit_messages DEFAULT_CONFIG
                  Scenario.auditFail
                  (Scenario.after Scenario.twoFails Scenario.single)))
                  (mkComponent "A" building None [] None None None 2)) as H.
    cbv zeta in H. destruct H as [Hretry _].
    + vm_compute. reflexivity.
    + reflexivity.
    + apply Hretry. simpl. lia.
  - apply (proj1 (handleAudit_messages DEFAULT_CONFIG
             (mkParsed AUDIT (Some "zzz") (Some "reviewer") (Some "PASS"))
             Scenario.single)).
    vm_compute. reflexivity.
Defined.


(** ** Construction *)

Lemma get_set_same (k : string) (v : Component) (m : CMap.t) :
  CMap.get k (CMap.set k v m) = Some v.
Proof.
  induction m as [|[k' c] m IH]; simpl.
  - now rewrite String.eqb_refl.
  - destruct (String.eqb k k') eqn:E; simpl; rewrite E; auto.
Qed.

Lemma get_set_other (k k' : string) (v : Component) (m : CMap.t) :
  String.eqb k' k = false ->
  CMap.get k' (CMap.set k v m) = CMap.get k' m.
Proof.
  intro Hne. induction m as [|[k0 c] m IH]; simpl.
  - now rewrite Hne.
  - destruct (String.eqb k k0) eqn:E; simpl.
    + apply String.eqb_eq in E. subst k0. now rewrite Hne.
    + destruct (String.eqb k' k0); auto.
Qed.

Lemma set_keys (k : string) (v : Component) (m : CMap.t) :
  map fst (CMap.set k v m)
  = if existsb (String.eqb k) (map fst m) then map fst m
    else (map fst m ++ [k])%list.
Proof.
  induction m as [|[k' c] m IH]; simpl; [reflexivity|].
  destruct (String.eqb k k'); simpl; [reflexivity|].
  rewrite IH. destruct (existsb (String.eqb k) (map fst m)); reflexivity.
Qed.

Lemma set_keys_NoDup (k : string) (v : Component) (m : CMap.t) :
  NoDup (map fst m) -> NoDup (map fst (CMap.set k v m)).
Proof.
  intro H. rewrite set_keys.
  destruct (existsb (String.eqb k) (map fst m)) eqn:E; [exact H|].
  apply NoDup_app; [exact H | repeat constructor; intros [] |].
  intros x Hx [Hk|[]]. subst x.
  assert (Ht : existsb (String.eqb k) (map fst m) = true).
  { apply existsb_exists. exists k. split; [exact Hx | apply String.eqb_refl]. }
  congruence.
Qed.

Lemma set_fresh (k : string) (v : Component) (m : CMap.t) :
  ~ In k (map fst m) -> CMap.set k v m = (m ++ [(k, v)])%list.
Proof.
  induction m as [|[k' c] m IH]; simpl; [reflexivity|].
  intro H. destruct (String.eqb_spec k k') as [->|Hne].
  - exfalso. apply H. now left.
  - rewrite IH; [reflexivity|]. intro Hin. apply H. now right.
Qed.

Lemma newCoordinator_snoc (url : string) (comps : list ComponentDef)
      (d : ComponentDef) (t0 : Z) :
  newCoordinator url (comps ++ [d]) t0
  = with_components
      (CMap.set (keyOf d) (initialComponent d)
                (components (newCoordinator url comps t0)))
      (newCoordinator url comps t0).
Proof. unfold newCoordinator. now rewrite fold_left_app. Qed.

(** X13. The constructor stores every definition under its lower-cased
    name; no key occurs twice; looking a key up gives the initial
    component (pending, no assignee, no time stamps, retry count 0,
    dependency names lower-cased) of the last definition given under that
    name; the spec url and the start time are the ones passed in. *)
Theorem newCoordinator_registry (url : string) (comps : list ComponentDef)
        (t0 : Z) :
  let st := newCoordinator url comps t0 in
  specUrl st = url /\ startedAt st = t0
  /\ NoDup (map fst (components st))
  /\ (forall k,
        CMap.get k (components st)
        = option_map initialComponent
            (find (fun d => String.eqb k (keyOf d)) (rev comps))).
Proof.
  cbv zeta. induction comps as [|d comps IH] using rev_ind.
  - simpl. repeat split; try constructor.
  - destruct IH as [Hurl [Ht [Hnd Hget]]].
    rewrite newCoordinator_snoc. simpl.
    split; [exact Hurl|]. split; [exact Ht|].
    split; [now apply set_keys_NoDup|].
    intro k. rewrite rev_app_distr. simpl.
    destruct (String.eqb k (keyOf d)) eqn:E.
    + apply String.eqb_eq in E. subst k. simpl. apply get_set_same.
    + rewrite get_set_other by exact E. apply Hget.
Qed.

Lemma filter_map_comm {A B : Type} (f : A -> B) (p : B -> bool)
      (l : list A) :
  filter p (map f l) = map f (filter (fun x => p (f x)) l).
Proof.
  induction l as [|x l IH]; simpl; [reflexivity|].
  destruct (p (f x)); simpl; now rewrite IH.
Qed.

(** Right after construction no dependency is merged. *)
Lemma depsLoop_initial (comps : list ComponentDef) (deps : list string) :
  depsLoop (map entryOf comps) deps
  = match deps with [] => true | _ :: _ => false end.
Proof.
  destruct deps as [|x deps]; [reflexivity|]. simpl.
  destruct (CMap.get x (map entryOf comps)) as [dep|] eqn:E; [|reflexivity].
  apply CMapFacts.get_In in E. unfold CMap.values in E.
  rewrite map_map in E. apply in_map_iff in E.
  destruct E as [d0 [<- _]]. reflexivity.
Qed.

(** X14. When the lower-cased names are pairwise distinct, the registry
    lists the definitions in the order given, and the components claimable
    right after construction are exactly those without dependencies. *)
Theorem newCoordinator_distinct_names (url : string)
        (comps : list ComponentDef) (t0 : Z) :
  NoDup (map keyOf comps) ->
  let st := newCoordinator url comps t0 in
  components st = map entryOf comps
  /\ getAvailableComponents st
     = map initialComponent (filter noDependencies comps).
Proof.
  intro Hnd. cbv zeta.
  assert (Hmap : components (newCoordinator url comps t0) = map entryOf comps).
  { induction comps as [|d comps IH] using rev_ind; [reflexivity|].
    rewrite map_app in Hnd. apply NoDup_remove in Hnd.
    rewrite app_nil_r in Hnd. destruct Hnd as [Hnd Hfresh].
    rewrite newCoordinator_snoc. simpl. rewrite (IH Hnd), map_app. simpl.
    apply set_fresh. rewrite map_map. exact Hfresh. }
  split; [exact Hmap|].
  rewrite getAvailableComponents_filter. unfold CMap.values, dependenciesMet.
  rewrite Hmap, map_map. simpl.
  rewrite filter_map_comm. f_equal. apply filter_ext. intro d.
  rewrite depsLoop_initial. unfold noDependencies. simpl.
  destruct (def_dependencies d); reflexivity.
Qed.

Lemma newCoordinator_distinct_names_witness :
  NoDup (map keyOf [mkDef "A" []; mkDef "B" ["A"; "Ghost"]])
  /\ getAvailableComponents Scenario.dangling
     = [mkComponent "A" pending None [] None None None 0].
Proof.
  assert (Hnd : NoDup (map keyOf [mkDef "A" []; mkDef "B" ["A"; "Ghost"]])).
  { repeat constructor; simpl; intuition discriminate. }
  split; [exact Hnd|].
  exact (proj2 (newCoordinator_distinct_names "spec" _ 0 Hnd)).
Defined.


(** ** What no operation touches *)

Lemma transition_identity (cfg : CoordinatorConfig) (c c' : Component) :
  transition cfg c c' ->
  name c' = name c /\ dependencies c' = dependencies c.
Proof. intro Ht. inversion Ht; subst; simpl; auto. Qed.

Lemma evolves_identity (cfg : CoordinatorConfig) (m m' : CMap.t) :
  evolves cfg m m' -> map identityOf m' = map identityOf m.
Proof.
  intro Hev. induction Hev as [|[k c] [k' c'] m m' [Hk Ht] _ IH]; simpl;
    [reflexivity|].
  simpl in Hk, Ht. subst k'. apply transition_identity in Ht.
  destruct Ht as [Hn Hd]. f_equal; [|exact IH].
  unfold identityOf. simpl. now rewrite Hn, Hd.
Qed.

Lemma step_frame (cfg : CoordinatorConfig) (op : Op) (st : BuildState) :
  specUrl (exec (step cfg op) st) = specUrl st
  /\ startedAt (exec (step cfg op) st) = startedAt st.
Proof.
  destruct op as [content fromAgent now | now | ]; simpl.
  - unfold handleMessage.
    destruct (parseMessage content fromAgent) as [msg|]; [|split; reflexivity].
    destruct (type msg); try (split; reflexivity).
    + unfold exec. rewrite handleClaim_run.
      destruct (CMap.getOpt (component msg) (components st)) as [comp|];
        [|split; reflexivity].
      destruct (negb (status_eqb (status comp) pending));
        [split; reflexivity|].
      destruct (negb (dependenciesMet st comp)); split; reflexivity.
    + unfold exec. rewrite handleProgress_run.
      destruct (CMap.getOpt (component msg) (components st)) as [comp|];
        [destruct (sameAgent (assignee comp) (agent msg))|];
        split; reflexivity.
    + unfold exec. rewrite handleReady_run.
      destruct (CMap.getOpt (component msg) (components st)) as [comp|];
        [destruct (sameAgent (assignee comp) (agent msg))|];
        split; reflexivity.
    + rewrite handleAudit_state.
      destruct (CMap.getOpt (component msg) (components st)) as [comp|];
        split; reflexivity.
    + unfold exec. rewrite handleAbort_run.
      destruct (CMap.getOpt (component msg) (components st)) as [comp|];
        [destruct (sameAgent (assignee comp) (agent msg))|];
        split; reflexivity.
  - unfold exec, checkTimeouts.
    destruct (sweepEntries cfg now (components st)) as [m out].
    split; reflexivity.
  - split; reflexivity.
Qed.

Lemma runOps_frame (cfg : CoordinatorConfig) (ops : list Op)
      (st : BuildState) :
  specUrl (exec (runOps cfg ops) st) = specUrl st
  /\ startedAt (exec (runOps cfg ops) st) = startedAt st
  /\ map identityOf (components (exec (runOps cfg ops) st))
     = map identityOf (components st).
Proof.
  revert st. induction ops as [|op ops IH]; intro st; simpl.
  - repeat split; reflexivity.
  - rewrite exec_bind.
    destruct (IH (exec (step cfg op) st)) as [Hu [Ht Hi]].
    destruct (step_frame cfg op st) as [Hu' Ht'].
    rewrite Hu, Ht, Hi, Hu', Ht'.
    rewrite (evolves_identity cfg _ _ (step_evolves cfg op st)).
    repeat split; reflexivity.
Qed.

(** X15. Whatever messages and sweeps are handled, the registry keeps the
    same keys in the same order, every component keeps its display name
    and its dependency names, and the spec url and the start time stay
    the ones of construction: no operation adds, removes, renames or
    reorders components. *)
Theorem registry_frame (cfg : CoordinatorConfig) (ops : list Op)
        (st : BuildState) :
  let st' := exec (runOps cfg ops) st in
  specUrl st' = specUrl st
  /\ startedAt st' = startedAt st
  /\ map fst (components st') = map fst (components st)
  /\ map (fun e => name (snd e)) (components st')
     = map (fun e => name (snd e)) (components st)
  /\ map (fun e => dependencies (snd e)) (components st')
     = map (fun e => dependencies (snd e)) (components st).
Proof.
  cbv zeta. destruct (runOps_frame cfg ops st) as [Hu [Ht Hi]].
  split; [exact Hu|]. split; [exact Ht|].
  assert (Hf : forall (A : Type) (g : string * string * list string -> A) m,
            map (fun e => g (identityOf e)) m = map g (map identityOf m)).
  { intros A g m. now rewrite map_map. }
  split; [|split].
  - change (fun e : string * Component => fst e)
      with (fun e : string * Component => fst (fst (identityOf e))).
    change (@fst string Component)
      with (fun e : string * Component => fst (fst (identityOf e))).
    rewrite !(Hf _ (fun i => fst (fst i))). now rewrite Hi.
  - change (fun e : string * Component => name (snd e))
      with (fun e : string * Component => snd (fst (identityOf e))).
    rewrite !(Hf _ (fun i => snd (fst i))). now rewrite Hi.
  - change (fun e : string * Component => dependencies (snd e))
      with (fun e : string * Component => snd (identityOf e)).
    rewrite !(Hf _ (fun i => snd i)). now rewrite Hi.
Qed.

Lemma In_get_NoDup (k : string) (c : Component) (m : CMap.t) :
  NoDup (map fst m) -> (In (k, c) m <-> CMap.get k m = Some c).
Proof.
  induction m as [|[k' c'] m IH]; simpl; intro Hnd.
  - split; [intros [] | discriminate].
  - inversion Hnd as [|x xs Hnotin Hnd']; subst.
    destruct (String.eqb_spec k k') as [->|Hne].
    + split.
      * intros [H|H]; [now inversion H|].
        exfalso. apply Hnotin. apply in_map_iff. exists (k', c). auto.
      * intro H. inversion H. now left.
    + rewrite <- (IH Hnd'). split.
      * intros [H|H]; [inversion H; congruence | exact H].
      * intro H. now right.
Qed.

Lemma newCoordinator_wellformed (url : string) (comps : list ComponentDef)
      (t0 : Z) :
  NoDup (map fst (components (newCoordinator url comps t0)))
  /\ Forall (fun i => fst (fst i) = JsString.toLowerCase (snd (fst i))
                      /\ Forall (fun d => JsString.toLowerCase d = d) (snd i))
            (map identityOf (components (newCoordinator url comps t0))).
Proof.
  induction comps as [|d comps [Hnd Hall]] using rev_ind.
  - split; constructor.
  - rewrite newCoordinator_snoc. simpl. split; [now apply set_keys_NoDup|].
    assert (Hd : (fun i : string * string * list string =>
                    fst (fst i) = JsString.toLowerCase (snd (fst i))
                    /\ Forall (fun d => JsString.toLowerCase d = d) (snd i))
                   (identityOf (entryOf d))).
    { simpl. split; [reflexivity|]. apply Forall_forall.
      intros x Hx. apply in_map_iff in Hx. destruct Hx as [y [<- _]].
      apply toLowerCase_idempotent. }
    revert Hall. generalize (components (newCoordinator url comps t0)).
    intro m. induction m as [|[k' c] m IH]; simpl; intro Hall.
    + constructor; [exact Hd | constructor].
    + inversion Hall; subst.
      destruct (String.eqb (keyOf d) k') eqn:E; simpl.
      * apply String.eqb_eq in E. subst k'. constructor; [exact Hd | assumption].
      * constructor; [assumption | auto].
Qed.

(** X16. In every state a coordinator can reach, no key occurs twice, so a
    component sits in the registry exactly when looking its key up finds
    it; its key is the lower-cased form of its display name, and its
    dependency names are in lower case. *)
Theorem reachable_registry_wellformed (cfg : CoordinatorConfig)
        (st : BuildState) :
  reachable cfg st ->
  NoDup (map fst (components st))
  /\ (forall k c, In (k, c) (components st)
                  <-> CMap.get k (components st) = Some c)
  /\ (forall k c, In (k, c) (components st) ->
                  k = JsString.toLowerCase (name c)
                  /\ forall d, In d (dependencies c) ->
                               JsString.toLowerCase d = d).
Proof.
  intros [url [comps [t0 [ops ->]]]].
  destruct (runOps_frame cfg ops (newCoordinator url comps t0))
    as [_ [_ Hi]].
  destruct (newCoordinator_wellformed url comps t0) as [Hnd Hall].
  assert (Hkeys : map fst (components
                    (exec (runOps cfg ops) (newCoordinator url comps t0)))
                  = map fst (components (newCoordinator url comps t0))).
  { assert (Hf : forall m : CMap.t,
              map fst m = map (fun i => fst (fst i)) (map identityOf m)).
    { intro m. rewrite map_map. reflexivity. }
    now rewrite (Hf (components (exec _ _))), Hi, <- Hf. }
  assert (Hnd' : NoDup (map fst (components
                   (exec (runOps cfg ops) (newCoordinator url comps t0))))).
  { now rewrite Hkeys. }
  split; [exact Hnd'|]. split.
  - intros k c. now apply In_get_NoDup.
  - intros k c Hin. rewrite <- Hi in Hall.
    rewrite Forall_forall in Hall.
    assert (Hid : In (identityOf (k, c))
                     (map identityOf (components
                        (exec (runOps cfg ops)
                              (newCoordinator url comps t0))))).
    { now apply in_map. }
    destruct (Hall _ Hid) as [Hk Hdeps]. simpl in Hk, Hdeps.
    split; [exact Hk|]. now apply Forall_forall.
Qed.

Lemma reachable_registry_wellformed_witness :
  let st := Scenario.after Scenario.reclaimed Scenario.dangling in
  reachable DEFAULT_CONFIG st
  /\ NoDup (map fst (components st))
  /\ (CMap.get "b" (components st)
      = Some (mkComponent "B" pending None ["a"; "ghost"] None None None 0)
      -> In ("b", mkComponent "B" pending None ["a"; "ghost"] None None None 0)
            (components st)).
Proof.
  cbv zeta.
  assert (Hr : reachable DEFAULT_CONFIG
                 (Scenario.after Scenario.reclaimed Scenario.dangling)).
  { apply reachable_after. }
  destruct (reachable_registry_wellformed DEFAULT_CONFIG _ Hr)
    as [Hnd [Hget _]].
  split; [exact Hr|]. split; [exact Hnd|].
  intro H. now apply Hget.
Defined.


(** ** Keywords, and sweeps one after the other *)

Lemma keyword_pattern_begins (key : string) (r : RegExp.t) (s : string)
      (m : RegExp.Captures) :
  RegExp.exec (RegExp.Seq Patterns.bold (RegExp.Seq (RegExp.Lit key) r)) s
  = Some m ->
  beginsWith key s.
Proof.
  unfold RegExp.exec, Patterns.bold, beginsWith. cbn [RegExp.run].
  destruct (RegExp.lit "**" s) as [u|] eqn:Eb.
  - destruct (RegExp.lit key u) as [rest|] eqn:Ek.
    + intros _. right. eauto.
    + destruct (RegExp.lit key s) as [rest|]; [|discriminate].
      intros _. left. eauto.
  - destruct (RegExp.lit key s) as [rest|]; [|discriminate].
    intros _. left. eauto.
Qed.

(** X17. The type of a parsed event is the keyword the trimmed line
    begins with (in any letter case, possibly behind one bold marker). *)
Theorem parseMessage_keyword (content fromAgent : string)
        (m : ParsedMessage) :
  parseMessage content fromAgent = Some m ->
  beginsWith (typeText (type m)) (JsString.trim content).
Proof.
  unfold parseMessage, MESSAGE_PATTERNS. cbn [firstMatch].
  unfold Patterns.claim, Patterns.progress, Patterns.ready, Patterns.blocked,
    Patterns.abort, Patterns.audit.
  repeat match goal with
         | |- match RegExp.exec ?p ?s with _ => _ end = _ -> _ =>
             let E := fresh "E" in
             destruct (RegExp.exec p s) eqn:E;
             [ intro H; inversion H; subst; clear H; simpl;
               eapply keyword_pattern_begins; exact E | ]
         end.
  discriminate.
Qed.

Lemma parseMessage_keyword_witness :
  parseMessage " **abort Auth giving up" "agent1"
  = Some (mkParsed ABORT (Some "auth") (Some "agent1") (Some "giving up"))
  /\ beginsWith "ABORT" "**abort Auth giving up".
Proof.
  assert (H : parseMessage " **abort Auth giving up" "agent1"
              = Some (mkParsed ABORT (Some "auth") (Some "agent1")
                               (Some "giving up"))).
  { vm_compute. reflexivity. }
  split; [exact H|].
  exact (parseMessage_keyword _ _ _ H).
Defined.

Lemma timedOutb_later (cfg : CoordinatorConfig) (now later : Z)
      (c : Component) :
  now <= later -> timedOutb cfg now c = true -> timedOutb cfg later c = true.
Proof.
  intros Hle. unfold timedOutb.
  destruct (status c); try discriminate.
  - destruct (claimedAt c) as [t|]; [|discriminate].
    intro H. apply andb_true_iff in H. destruct H as [H0 Hlt].
    rewrite H0. simpl. apply Z.ltb_lt in Hlt. apply Z.ltb_lt. lia.
  - destruct (lastProgress c) as [t|]; [|discriminate].
    intro H. apply andb_true_iff in H. destruct H as [H0 Hlt].
    rewrite H0. simpl. apply Z.ltb_lt in Hlt. apply Z.ltb_lt. lia.
Qed.

Lemma sweepComponent_later (cfg : CoordinatorConfig) (now later : Z)
      (c : Component) :
  now <= later ->
  fst (sweepComponent cfg later (fst (sweepComponent cfg now c)))
  = fst (sweepComponent cfg later c).
Proof.
  intro Hle. rewrite (sweepComponent_cases cfg now c).
  destruct (timedOutb cfg now c) eqn:E; [|reflexivity].
  cbn [fst]. rewrite !sweepComponent_cases.
  rewrite (timedOutb_later cfg now later c Hle E). reflexivity.
Qed.

Lemma sweepEntries_later (cfg : CoordinatorConfig) (now later : Z)
      (m : CMap.t) :
  now <= later ->
  fst (sweepEntries cfg later (fst (sweepEntries cfg now m)))
  = fst (sweepEntries cfg later m).
Proof.
  intro Hle. induction m as [|[k c] m IH]; simpl; [reflexivity|].
  pose proof (sweepComponent_later cfg now later c Hle) as Hc.
  destruct (sweepComponent cfg now c) as [c1 out1].
  destruct (sweepEntries cfg now m) as [m1 outs1]. simpl in *.
  destruct (sweepComponent cfg later c1) as [c2 out2].
  destruct (sweepEntries cfg later m1) as [m2 outs2].
  destruct (sweepComponent cfg later c) as [c3 out3].
  destruct (sweepEntries cfg later m) as [m3 outs3]. simpl in *.
  now rewrite Hc, IH.
Qed.

(** X18. A sweep that was run earlier changes nothing for a later one:
    sweeping at [now] and then at [later >= now] leaves the registry in
    the state a single sweep at [later] leaves it in. *)
Theorem checkTimeouts_absorbs_earlier (cfg : CoordinatorConfig)
        (now later : Z) (st : BuildState) :
  now <= later ->
  exec (checkTimeouts cfg later) (exec (checkTimeouts cfg now) st)
  = exec (checkTimeouts cfg later) st.
Proof.
  intro Hle. unfold exec, checkTimeouts.
  pose proof (sweepEntries_later cfg now later (components st) Hle) as H.
  destruct (sweepEntries cfg now (components st)) as [m1 out1].
  simpl in *.
  destruct (sweepEntries cfg later m1) as [m2 out2].
  destruct (sweepEntries cfg later (components st)) as [m3 out3].
  simpl in *. now rewrite H.
Qed.

Lemma checkTimeouts_absorbs_earlier_witness :
  exec (checkTimeouts DEFAULT_CONFIG 700000)
       (exec (checkTimeouts DEFAULT_CONFIG 30000)
             (Scenario.after Scenario.claimProgress Scenario.single))
  = exec (checkTimeouts DEFAULT_CONFIG 700000)
         (Scenario.after Scenario.claimProgress Scenario.single).
Proof.
  apply (checkTimeouts_absorbs_earlier DEFAULT_CONFIG 30000 700000). lia.
Defined.
